(** * A shallow embedding of the home-automation bot (bot_core.py, api_server.py)

    The development follows the Python sources function by function.

    - Python [str] values are sequences of Unicode code points ([list N]);
      [len], slicing, [replace], [lower], [strip] and the handful of regular
      expressions the program compiles are written out over that type.
    - Dictionaries whose iteration order the program relies on
      ([HOUSE_PATTERNS], the grouping result, [devices_cache]) are association
      lists in insertion order; the per-user session table and the timestamp
      table, only ever read by key, are finite maps.
    - The bot object is a record of its attributes; every method is a
      state-passing function over the bot, the list of network requests issued
      so far and the number of clock readings taken.  The hub, the messaging
      platform and the wall clock are oracles of the environment. *)

From Stdlib Require Import List ZArith NArith QArith Lia Bool String Ascii Permutation.
From stdpp Require Import base gmap list.
Import ListNotations.

Local Open Scope N_scope.

(** ** Python strings *)

Module Py.

(** A character is a Unicode code point. *)
Definition char : Type := N.
Definition str : Type := list char.

(** *** String literals

    Literals are written as UTF-8 text and decoded to code points. *)

Fixpoint utf8_decode (fuel : nat) (bs : list N) : str :=
  match fuel with
  | O => []
  | S fuel' =>
    match bs with
    | [] => []
    | b0 :: r0 =>
      if b0 <? 128 then b0 :: utf8_decode fuel' r0
      else if b0 <? 224 then
        match r0 with
        | b1 :: r1 => ((b0 mod 32) * 64 + b1 mod 64) :: utf8_decode fuel' r1
        | _ => []
        end
      else if b0 <? 240 then
        match r0 with
        | b1 :: b2 :: r2 =>
            ((b0 mod 16) * 4096 + (b1 mod 64) * 64 + b2 mod 64) :: utf8_decode fuel' r2
        | _ => []
        end
      else
        match r0 with
        | b1 :: b2 :: b3 :: r3 =>
            ((b0 mod 8) * 262144 + (b1 mod 64) * 4096 + (b2 mod 64) * 64 + b3 mod 64)
              :: utf8_decode fuel' r3
        | _ => []
        end
    end
  end.

Definition u (s : string) : str :=
  let bs := List.map N_of_ascii (list_ascii_of_string s) in
  utf8_decode (List.length bs) bs.

Definition nl : str := [10].
Definition SP : char := 32.

Fixpoint str_eqb (a b : str) : bool :=
  match a, b with
  | [], [] => true
  | x :: a', y :: b' => (x =? y) && str_eqb a' b'
  | _, _ => false
  end.

(** *** Character classes *)

(** [str.isspace] / the regex class [\s] on Unicode text. *)
Definition is_space (c : char) : bool :=
  ((9 <=? c) && (c <=? 13)) || ((28 <=? c) && (c <=? 32))
  || (c =? 133) || (c =? 160) || (c =? 5760)
  || ((8192 <=? c) && (c <=? 8202))
  || (c =? 8232) || (c =? 8233) || (c =? 8239) || (c =? 8287) || (c =? 12288).

Definition is_digit (c : char) : bool := (48 <=? c) && (c <=? 57).

(** The surrogate code points U+D800..U+DFFF.  A Python [str] may hold them
    unpaired (JSON text such as a lone [\ud83d] escape decodes to one), and
    [str.encode('utf-8')] raises UnicodeEncodeError on them. *)
Definition is_surrogate (c : char) : bool := (55296 <=? c) && (c <=? 57343).

(** Whether [s.encode('utf-8')] succeeds. *)
Definition utf8_encodable (s : str) : bool :=
  List.forallb (fun c => negb (is_surrogate c)) s.

(** The regex class [\w]: letters, digits and the underscore.  Letters are
    covered for the Latin, Greek and Cyrillic blocks, the alphabets device
    names of this installation are written in. *)
Definition is_word (c : char) : bool :=
  is_digit c
  || ((65 <=? c) && (c <=? 90)) || ((97 <=? c) && (c <=? 122)) || (c =? 95)
  || ((192 <=? c) && (c <=? 591) && negb (c =? 215) && negb (c =? 247))
  || ((880 <=? c) && (c <=? 1023) && negb (c =? 894) && negb (c =? 903))
  || ((1024 <=? c) && (c <=? 1327) && negb ((1154 <=? c) && (c <=? 1161))).

(** Simple lower-case mapping of one code point: ASCII, Latin-1 and the
    Cyrillic capitals; every other code point is its own lower case. *)
Definition lower_char (c : char) : char :=
  if (65 <=? c) && (c <=? 90) then c + 32
  else if (192 <=? c) && (c <=? 222) && negb (c =? 215) then c + 32
  else if (1040 <=? c) && (c <=? 1071) then c + 32
  else if (1024 <=? c) && (c <=? 1039) then c + 80
  else c.

(** [s.lower()] *)
Definition lower (s : str) : str := List.map lower_char s.

(** Two characters match under [re.IGNORECASE]. *)
Definition ci_eqb (a b : char) : bool := lower_char a =? lower_char b.

(** *** Substrings *)

Fixpoint is_prefix (eqc : char -> char -> bool) (p s : str) : bool :=
  match p, s with
  | [], _ => true
  | _ :: _, [] => false
  | a :: p', b :: s' => eqc a b && is_prefix eqc p' s'
  end.

(** [p in s] for strings (with [eqc] the character comparison). *)
Fixpoint occurs_with (eqc : char -> char -> bool) (p s : str) : bool :=
  is_prefix eqc p s ||
  match s with
  | [] => false
  | _ :: s' => occurs_with eqc p s'
  end.

Definition contains (p s : str) : bool := occurs_with N.eqb p s.

(** Deleting every occurrence of a non-empty [p], scanning left to right and
    resuming after each occurrence ([skip] counts the characters of the
    current occurrence still to be dropped). *)
Fixpoint delete_go (eqc : char -> char -> bool) (p : str) (skip : nat) (s : str) : str :=
  match s with
  | [] => []
  | c :: s' =>
    match skip with
    | S k => delete_go eqc p k s'
    | O =>
      if is_prefix eqc p s then delete_go eqc p (Nat.pred (List.length p)) s'
      else c :: delete_go eqc p 0%nat s'
    end
  end.

(** Deleting the empty string changes nothing (Python finds it at every
    position and replaces it by nothing). *)
Definition delete_all (eqc : char -> char -> bool) (p s : str) : str :=
  match p with
  | [] => s
  | _ :: _ => delete_go eqc p 0%nat s
  end.

(** [s.replace(old, '')] *)
Definition replace_with_empty (old s : str) : str := delete_all N.eqb old s.

(** [re.sub(re.escape(p), '', s, flags=re.IGNORECASE)] *)
Definition re_sub_escaped_ci (p s : str) : str := delete_all ci_eqb p s.

(** [re.sub(r'\s+', ' ', s)]: [in_ws] tells that the previous character
    belonged to a whitespace run already replaced. *)
Fixpoint collapse_ws (in_ws : bool) (s : str) : str :=
  match s with
  | [] => []
  | c :: s' =>
    if is_space c then
      (if in_ws then collapse_ws true s' else SP :: collapse_ws true s')
    else c :: collapse_ws false s'
  end.

Fixpoint lstrip (s : str) : str :=
  match s with
  | [] => []
  | c :: s' => if is_space c then lstrip s' else s
  end.

Definition rstrip (s : str) : str := List.rev (lstrip (List.rev s)).

(** [s.strip()] *)
Definition strip (s : str) : str := rstrip (lstrip s).

(** *** Numbers in text *)

Fixpoint digits_of_uint (d : Decimal.uint) : str :=
  match d with
  | Decimal.Nil => []
  | Decimal.D0 d' => 48 :: digits_of_uint d'
  | Decimal.D1 d' => 49 :: digits_of_uint d'
  | Decimal.D2 d' => 50 :: digits_of_uint d'
  | Decimal.D3 d' => 51 :: digits_of_uint d'
  | Decimal.D4 d' => 52 :: digits_of_uint d'
  | Decimal.D5 d' => 53 :: digits_of_uint d'
  | Decimal.D6 d' => 54 :: digits_of_uint d'
  | Decimal.D7 d' => 55 :: digits_of_uint d'
  | Decimal.D8 d' => 56 :: digits_of_uint d'
  | Decimal.D9 d' => 57 :: digits_of_uint d'
  end.

(** [f"{n}"] for a natural number. *)
Definition str_of_nat (n : nat) : str := digits_of_uint (Nat.to_uint n).

(** [int(re.search(r'\d+', s).group())]: the value of the first run of
    digits, [None] when [s] has no digit (where Python raises
    AttributeError on [None.group()]). *)
Fixpoint read_digits (acc : N) (s : str) : N :=
  match s with
  | c :: s' => if is_digit c then read_digits (acc * 10 + (c - 48)) s' else acc
  | [] => acc
  end.

Fixpoint first_int (s : str) : option N :=
  match s with
  | [] => None
  | c :: s' => if is_digit c then Some (read_digits 0 s) else first_int s'
  end.

(** *** The regular expressions of the pattern table

    The patterns the program compiles use literal characters, [\s*] and
    [\b] only. *)

Inductive atom : Type :=
  | Lit (c : char)
  | SpaceStar
  | WordB.

Definition regex : Type := list atom.

Definition lits (s : str) : regex := List.map Lit s.

Definition is_word_opt (o : option char) : bool :=
  match o with
  | Some c => is_word c
  | None => false
  end.

(** [\b] holds between a word character and a non-word character or an end
    of the text. *)
Definition at_boundary (prev : option char) (s : str) : bool :=
  xorb (is_word_opt prev) (is_word_opt (List.head s)).

(** Does [p] match at the current position?  [prev] is the character before
    the position. *)
Fixpoint match_here (p : regex) (prev : option char) (s : str) {struct p} : bool :=
  match p with
  | [] => true
  | Lit c :: p' =>
    match s with
    | x :: s' => ci_eqb c x && match_here p' (Some x) s'
    | [] => false
    end
  | WordB :: p' => at_boundary prev s && match_here p' prev s
  | SpaceStar :: p' =>
    (fix star (prev : option char) (s : str) {struct s} : bool :=
       match_here p' prev s ||
       match s with
       | x :: s' => is_space x && star (Some x) s'
       | [] => false
       end) prev s
  end.

Fixpoint search_from (p : regex) (prev : option char) (s : str) : bool :=
  match_here p prev s ||
  match s with
  | x :: s' => search_from p (Some x) s'
  | [] => false
  end.

(** [re.compile(p, re.IGNORECASE).search(s)] as a truth value. *)
Definition re_search (p : regex) (s : str) : bool := search_from p None s.

End Py.

Import Py.


(** ** Ordered dictionaries

    A Python [dict] iterates in insertion order; assigning to an existing key
    keeps the key's position. *)

Section Dict.
Context {V : Type}.

Definition dict : Type := list (str * V).

Fixpoint dict_get (k : str) (d : dict) : option V :=
  match d with
  | [] => None
  | (k', v) :: d' => if str_eqb k k' then Some v else dict_get k d'
  end.

(** [k in d] *)
Definition dict_mem (k : str) (d : dict) : bool :=
  match dict_get k d with
  | Some _ => true
  | None => false
  end.

(** [d.get(k, default)] *)
Definition dict_get_default (k : str) (d : dict) (default : V) : V :=
  match dict_get k d with
  | Some v => v
  | None => default
  end.

(** [d[k] = v] *)
Fixpoint dict_set (k : str) (v : V) (d : dict) : dict :=
  match d with
  | [] => [(k, v)]
  | (k', v') :: d' =>
    if str_eqb k k' then (k', v) :: d' else (k', v') :: dict_set k v d'
  end.

(** Updating the value stored under an existing key in place, as
    [d[k].append(x)] does; a dictionary without the key is returned
    unchanged. *)
Fixpoint dict_alter (f : V -> V) (k : str) (d : dict) : dict :=
  match d with
  | [] => []
  | (k', v) :: d' =>
    if str_eqb k k' then (k', f v) :: d' else (k', v) :: dict_alter f k d'
  end.

Definition dict_keys (d : dict) : list str := List.map fst d.
End Dict.

Arguments dict V : clear implicits.

(** ** Constants of bot_core.py *)

Definition CONTROLLABLE_DOMAINS : list str :=
  [u "light"; u "switch"; u "climate"; u "cover"; u "fan"; u "input_boolean"].

Definition INVALID_STATES : list str :=
  [u "unavailable"; u "unknown"; u "None"; []].

(** [WORDS_TO_REMOVE] is a Python set: the order in which [shorten_name]
    visits it is fixed within one process but not by the program text.  The
    list below is the order of the literal; [shorten_name_in] takes the
    order as an argument. *)
Definition WORDS_TO_REMOVE : list str :=
  [u "свет"; u "light"; u "switch"; u "выключатель"; u "розетка"; u "лампа";
   u "lamp"; u "управление"; u "control"; u "temperature humidity sensor"].

Definition SENSORS_MAP : dict (dict str) :=
  [(u "Домик 1",
    [(u "battery", u "sensor.temperature_humidity_sensor_battery");
     (u "temperature_indoor", u "sensor.temperature_humidity_sensor_temperature");
     (u "humidity", u "sensor.temperature_humidity_sensor_humidity");
     (u "temperature_outdoor", u "sensor.kws_306wf_t1_temperature_2");
     (u "voltage_l1", u "sensor.kws_306wf_t1_voltage_a_2");
     (u "voltage_l2", u "sensor.kws_306wf_t1_voltage_b_2");
     (u "voltage_l3", u "sensor.kws_306wf_t1_voltage_c_2");
     (u "total_energy", u "sensor.kws_306wf_t1_total_energy")])].

(** [self.CACHE_TTL = 2] *)
Definition CACHE_TTL : Q := 2%Q.

Definition GENERAL : str := u "Общие устройства".

(** [f'Домик {i}'] *)
Definition house_name (i : nat) : str := u "Домик " ++ str_of_nat i.

(** ** The pattern table ([_compile_patterns]) *)

Definition house_patterns_for (i : nat) : list regex :=
  let n := lits (str_of_nat i) in
  [ lits (u "дом") ++ [SpaceStar] ++ n;
    lits (u "домик") ++ [SpaceStar] ++ n;
    lits (u "коттедж") ++ [SpaceStar] ++ n;
    lits (u "house") ++ [SpaceStar] ++ n;
    lits (u "cottage") ++ [SpaceStar] ++ n;
    [WordB] ++ n ++ [WordB];
    lits (u "t") ++ n;
    lits (u "kws-306wf t") ++ n ].

Definition HOUSE_PATTERNS : dict (list regex) :=
  let table := List.map (fun i => (house_name i, house_patterns_for i)) (List.seq 1 10) in
  dict_alter (fun ps => ps ++ [lits (u "temperature humidity sensor")])
             (u "Домик 1") table.

(** [self.device_name_pattern.sub('', text)] with the pattern [вкл|выкл],
    case-insensitive: at each position the first alternative is tried
    first. *)
Fixpoint device_name_pattern_sub (skip : nat) (s : str) : str :=
  match s with
  | [] => []
  | c :: s' =>
    match skip with
    | S k => device_name_pattern_sub k s'
    | O =>
      if is_prefix ci_eqb (u "вкл") s then device_name_pattern_sub 2 s'
      else if is_prefix ci_eqb (u "выкл") s then device_name_pattern_sub 3 s'
      else c :: device_name_pattern_sub 0 s'
    end
  end.

(** ** Pure helpers of the bot *)

(** [entity_id.split('.')[0]] *)
Fixpoint domain_of (entity_id : str) : str :=
  match entity_id with
  | [] => []
  | c :: r => if c =? 46 then [] else c :: domain_of r
  end.

Definition str_in (s : str) (l : list str) : bool := List.existsb (str_eqb s) l.

Definition _is_controllable_device (entity_id : str) : bool :=
  str_in (domain_of entity_id) CONTROLLABLE_DOMAINS.

(** [any(pattern.search(name) for pattern in patterns)] *)
Definition any_pattern_matches (patterns : list regex) (name : str) : bool :=
  List.existsb (fun p => re_search p name) patterns.

Fixpoint first_matching_house (table : dict (list regex)) (name : str) : option str :=
  match table with
  | [] => None
  | (house, patterns) :: rest =>
    if any_pattern_matches patterns name then Some house
    else first_matching_house rest name
  end.

Definition _assign_device_to_house (friendly_name : str) : str :=
  let friendly_name_lower := lower friendly_name in
  match first_matching_house HOUSE_PATTERNS friendly_name_lower with
  | Some house => house
  | None => GENERAL
  end.

(** [shorten_name], visiting the stop words in the order [words]. *)
Definition shorten_name_in (words : list str) (name area_name : str) : str :=
  let clean_name := re_sub_escaped_ci area_name name in
  let clean_name :=
    List.fold_left (fun acc word => replace_with_empty word acc) words clean_name in
  let clean_name := strip (collapse_ws false clean_name) in
  if (12 <? List.length clean_name)%nat then List.firstn 12 clean_name ++ u "..."
  else match clean_name with
       | [] => u "Устройство"
       | _ :: _ => clean_name
       end.

Definition shorten_name (name area_name : str) : str :=
  shorten_name_in WORDS_TO_REMOVE name area_name.

(** ** Data exchanged with the hub and the messaging platform *)

(** The [attributes] object of a hub state; the two attributes the program
    reads are kept. *)
Record Attributes : Type := {
  friendly_name : option str;
  unit_of_measurement : option str
}.

(** One state object as the hub's REST interface returns it. *)
Record StateObj : Type := {
  entity_id : str;
  state : str;
  attributes : Attributes;
  last_changed : str;
  last_updated : str
}.

(** The dictionary [get_device_state] builds. *)
Record Snapshot : Type := {
  snap_entity_id : str;
  snap_state : str;
  snap_attributes : Attributes;
  snap_last_changed : str;
  snap_last_updated : str
}.

(** The dictionary [_parse_sensor_data] builds. *)
Record SensorData : Type := {
  sd_value : str;        (* 'value' *)
  sd_unit : str;         (* 'unit' *)
  sd_name : str;         (* 'name' *)
  sd_entity_id : str     (* 'entity_id' *)
}.

(** A reply keyboard: [{"keyboard": rows, "resize_keyboard": True}]. *)
Definition Menu : Type := list (list str).

Record Message : Type := {
  msg_chat_id : Z;          (* msg["chat"]["id"] *)
  msg_text : option str     (* msg["text"], when present *)
}.

Record Update : Type := {
  update_id : Z;
  upd_message : option Message   (* update["message"], when present *)
}.

(** The answer to [getUpdates]: the fields [ok] and [result]. *)
Record Updates : Type := {
  upd_ok : bool;            (* result.get("ok") *)
  upd_result : list Update  (* result["result"] *)
}.

(** The requests the program sends.
    - [GetStates]: [home_assistant("states")]
    - [GetState e]: [home_assistant(f"states/{e}")]
    - [TurnService d a e]:
      [home_assistant(f"services/{d}/turn_{a}", {"entity_id": e}, "POST")]
    - [SendMessage c t m]: [telegram("sendMessage", ...)] with chat id, text
      and reply markup
    - [GetUpdates o]: [telegram(f"getUpdates?offset={o}&timeout=30")] *)
Inductive Request : Type :=
  | GetStates
  | GetState (e : str)
  | TurnService (domain action e : str)
  | SendMessage (chat : Z) (body : str) (reply_markup : Menu)
  | GetUpdates (offset : Z).

(** The environment.  [_make_request] returns the decoded answer or [None]
    on any failure; the [nat] argument is the number of requests issued
    before, so that answers may change over time.  Answers have the shape
    the hub and the platform document for each endpoint. *)
Record Env : Type := {
  hub_states : nat -> option (list StateObj);
  hub_state : nat -> str -> option StateObj;
  (** whether the service call was answered ([result is not None]) *)
  hub_service : nat -> str -> str -> str -> bool;
  (** whether [sendMessage] was answered *)
  telegram_send : nat -> Z -> str -> Menu -> bool;
  telegram_updates : nat -> Z -> option Updates;
  (** the k-th reading of [time.time()] *)
  clock : nat -> Q;
  (** whether [float(value)] succeeds *)
  float_ok : str -> bool
}.

(** ** The bot object *)

(** [{'state': ..., 'data': ...}] *)
Record UserState : Type := {
  us_state : str;
  us_data : option str
}.

Record Bot : Type := {
  last_id : Z;
  user_states : gmap Z UserState;
  devices_cache : dict (list StateObj);
  sensors_cache : dict (dict SensorData);
  _all_devices : option (list StateObj);
  _cache_timestamp : dict Q;
  (** the memo of [@lru_cache(maxsize=1)] on [get_all_areas_list] *)
  areas_list_memo : option (list str)
}.

(** The attributes as [init] sets them. *)
Definition init : Bot := {|
  last_id := 0;
  user_states := ∅;
  devices_cache := [];
  sensors_cache := [];
  _all_devices := None;
  _cache_timestamp := [];
  areas_list_memo := None
|}.

Record World : Type := {
  bot : Bot;
  (** requests issued so far, oldest first *)
  calls : list Request;
  (** number of clock readings taken so far *)
  ticks : nat
}.

Definition set_last_id (v : Z) (b : Bot) : Bot :=
  {| last_id := v; user_states := user_states b; devices_cache := devices_cache b;
     sensors_cache := sensors_cache b; _all_devices := _all_devices b;
     _cache_timestamp := _cache_timestamp b; areas_list_memo := areas_list_memo b |}.
Definition set_user_states (v : gmap Z UserState) (b : Bot) : Bot :=
  {| last_id := last_id b; user_states := v; devices_cache := devices_cache b;
     sensors_cache := sensors_cache b; _all_devices := _all_devices b;
     _cache_timestamp := _cache_timestamp b; areas_list_memo := areas_list_memo b |}.
Definition set_devices_cache (v : dict (list StateObj)) (b : Bot) : Bot :=
  {| last_id := last_id b; user_states := user_states b; devices_cache := v;
     sensors_cache := sensors_cache b; _all_devices := _all_devices b;
     _cache_timestamp := _cache_timestamp b; areas_list_memo := areas_list_memo b |}.
Definition set_sensors_cache (v : dict (dict SensorData)) (b : Bot) : Bot :=
  {| last_id := last_id b; user_states := user_states b; devices_cache := devices_cache b;
     sensors_cache := v; _all_devices := _all_devices b;
     _cache_timestamp := _cache_timestamp b; areas_list_memo := areas_list_memo b |}.
Definition set_all_devices (v : option (list StateObj)) (b : Bot) : Bot :=
  {| last_id := last_id b; user_states := user_states b; devices_cache := devices_cache b;
     sensors_cache := sensors_cache b; _all_devices := v;
     _cache_timestamp := _cache_timestamp b; areas_list_memo := areas_list_memo b |}.
Definition set_cache_timestamp (v : dict Q) (b : Bot) : Bot :=
  {| last_id := last_id b; user_states := user_states b; devices_cache := devices_cache b;
     sensors_cache := sensors_cache b; _all_devices := _all_devices b;
     _cache_timestamp := v; areas_list_memo := areas_list_memo b |}.
Definition set_areas_list_memo (v : option (list str)) (b : Bot) : Bot :=
  {| last_id := last_id b; user_states := user_states b; devices_cache := devices_cache b;
     sensors_cache := sensors_cache b; _all_devices := _all_devices b;
     _cache_timestamp := _cache_timestamp b; areas_list_memo := v |}.

(** ** State passing *)

Definition M (A : Type) : Type := World -> A * World.

#[global] Instance M_ret : MRet M := fun A (a : A) (w : World) => (a, w).
#[global] Instance M_bind : MBind M :=
  fun A B (k : A -> M B) (m : M A) (w : World) => let (a, w') := m w in k a w'.

Definition get_bot : M Bot := fun w => (bot w, w).
Definition modify_bot (f : Bot -> Bot) : M unit :=
  fun w => (tt, {| bot := f (bot w); calls := calls w; ticks := ticks w |}).

(** Sending one request: it is appended to [calls]; its answer is the
    environment's at this point of the run. *)
Definition send {A} (r : Request) (answer : nat -> A) : M A :=
  fun w => (answer (List.length (calls w)),
            {| bot := bot w; calls := calls w ++ [r]; ticks := ticks w |}).

Definition when (c : bool) (m : M unit) : M unit := if c then m else mret tt.

(** [for x in l: body x] *)
Fixpoint for_each {A} (l : list A) (body : A -> M unit) : M unit :=
  match l with
  | [] => mret tt
  | x :: l' => body x ;; for_each l' body
  end.

Definition Qltb (x y : Q) : bool := negb (Qle_bool y x).

(** ** The methods of [OptimizedHomeBot] *)

Section Methods.
Variable env : Env.

(** [time.time()] *)
Definition time_time : M Q :=
  fun w => (clock env (ticks w),
            {| bot := bot w; calls := calls w; ticks := S (ticks w) |}).

(** *** Device directory and cache *)

Definition get_all_devices : M (list StateObj) :=
  b ← get_bot;
  match _all_devices b with
  | None =>
    answer ← send GetStates (hub_states env);
    (* self.home_assistant("states") or [] *)
    let fetched := match answer with
                   | Some l => l
                   | None => []
                   end in
    modify_bot (set_all_devices (Some fetched));;
    mret fetched
  | Some l => mret l
  end.

(** [device['attributes'].get('friendly_name', '')] *)
Definition friendly_name_or_empty (device : StateObj) : str :=
  match friendly_name (attributes device) with
  | Some n => n
  | None => []
  end.

(** [{f'Домик {i}': [] for i in range(1, 11)}] with the general bucket
    added last. *)
Definition empty_houses : dict (list StateObj) :=
  List.map (fun i => (house_name i, [])) (List.seq 1 10) ++ [(GENERAL, [])].

(** The grouping loop: [houses[house_name].append(device)].  The name
    returned by [_assign_device_to_house] is always a key of [houses]
    (lemma [assign_is_house_key] below), so the lookup never fails. *)
Definition group_devices (controllable_devices : list StateObj) : dict (list StateObj) :=
  List.fold_left
    (fun houses device =>
       let house := _assign_device_to_house (friendly_name_or_empty device) in
       dict_alter (fun l => l ++ [device]) house houses)
    controllable_devices empty_houses.

Definition is_nonempty {A} (l : list A) : bool :=
  match l with
  | [] => false
  | _ :: _ => true
  end.

(** The pure part of [manual_area_grouping]. *)
Definition grouping_of (all_devices : list StateObj) : dict (list StateObj) :=
  let controllable_devices :=
    List.filter (fun device => _is_controllable_device (entity_id device)) all_devices in
  List.filter (fun kv => is_nonempty (snd kv)) (group_devices controllable_devices).

Definition manual_area_grouping (force_refresh : bool) : M (dict (list StateObj)) :=
  when force_refresh (modify_bot (set_all_devices None));;
  all_devices ← get_all_devices;
  mret (grouping_of all_devices).

Definition ALL : str := u "all".

Definition load_areas_with_devices (force_refresh : bool) : M (dict (list StateObj)) :=
  let area_name := ALL in
  current_time ← time_time;
  b ← get_bot;
  let cache_valid :=
    negb force_refresh
    && match dict_get area_name (_cache_timestamp b) with
       | Some stamp => Qltb (current_time - stamp) CACHE_TTL
       | None => false
       end
    && dict_mem area_name (devices_cache b) in
  if cache_valid then mret (devices_cache b)
  else
    grouped ← manual_area_grouping force_refresh;
    modify_bot (set_devices_cache grouped);;
    modify_bot (fun b => set_cache_timestamp (dict_set area_name current_time (_cache_timestamp b)) b);;
    b' ← get_bot;
    mret (devices_cache b').

(** The four assignments every invalidation site repeats. *)
Definition _clear_cache : M unit :=
  modify_bot (set_devices_cache []);;
  modify_bot (set_all_devices None);;
  modify_bot (set_cache_timestamp []);;
  modify_bot (set_areas_list_memo None).

Definition get_area_devices (area_name : str) (force_refresh : bool) : M (list StateObj) :=
  when force_refresh _clear_cache;;
  areas ← load_areas_with_devices force_refresh;
  mret (dict_get_default area_name areas []).

(** [sorted(l, key=...)]: a stable insertion sort on the integer key. *)
Fixpoint insert_by_key (x : N * str) (l : list (N * str)) : list (N * str) :=
  match l with
  | [] => [x]
  | y :: l' => if fst x <? fst y then x :: l else y :: insert_by_key x l'
  end.

Definition sort_by_key (l : list (N * str)) : list (N * str) :=
  List.fold_left (fun acc x => insert_by_key x acc) l [].

(** The keys of the houses; [None] when some name has no digit. *)
Fixpoint with_int_keys (l : list str) : option (list (N * str)) :=
  match l with
  | [] => Some []
  | a :: l' =>
    match first_int a, with_int_keys l' with
    | Some k, Some r => Some ((k, a) :: r)
    | _, _ => None
    end
  end.

Definition DOMIK : str := u "Домик".

(** [get_all_areas_list]; [None] stands for the AttributeError of
    [re.search(r'\d+', x).group()] on a house name without a digit, in
    which case nothing is memoised. *)
Definition get_all_areas_list : M (option (list str)) :=
  b ← get_bot;
  match areas_list_memo b with
  | Some l => mret (Some l)
  | None =>
    grouped ← load_areas_with_devices false;
    let areas := dict_keys grouped in
    match with_int_keys (List.filter (contains DOMIK) areas) with
    | None => mret None
    | Some keyed =>
      let houses := List.map snd (sort_by_key keyed) in
      let others := List.filter (fun a => negb (contains DOMIK a)) areas in
      modify_bot (set_areas_list_memo (Some (houses ++ others)));;
      mret (Some (houses ++ others))
    end
  end.

(** *** Sensors *)

Definition _parse_sensor_data (o : StateObj) : SensorData :=
  {| sd_value := state o;
     sd_unit := match unit_of_measurement (attributes o) with Some x => x | None => [] end;
     sd_name := match friendly_name (attributes o) with Some x => x | None => [] end;
     sd_entity_id := entity_id o |}.

Definition get_sensor_state (e : str) : M (option SensorData) :=
  answer ← send (GetState e) (fun n => hub_state env n e);
  mret (option_map _parse_sensor_data answer).

Definition _is_numeric_value (v : str) : bool :=
  is_nonempty v && negb (str_in v INVALID_STATES) && float_ok env v.

Fixpoint collect_sensors (sensors : dict str) (kws_data : dict SensorData)
  : M (dict SensorData) :=
  match sensors with
  | [] => mret kws_data
  | (sensor_type, e) :: rest =>
    sensor_data ← get_sensor_state e;
    match sensor_data with
    | Some d =>
      if _is_numeric_value (sd_value d)
      then collect_sensors rest (dict_set sensor_type d kws_data)
      else collect_sensors rest kws_data
    | None => collect_sensors rest kws_data
    end
  end.

Definition get_kws_sensors_data (area_name : str) : M (option (dict SensorData)) :=
  match dict_get area_name SENSORS_MAP with
  | None => mret None
  | Some sensors =>
    kws_data ← collect_sensors sensors [];
    modify_bot (fun b => set_sensors_cache (dict_set area_name kws_data (sensors_cache b)) b);;
    mret (Some kws_data)
  end.

(** ["\n".join(lines)] *)
Fixpoint join (sep : str) (lines : list str) : str :=
  match lines with
  | [] => []
  | [l] => l
  | l :: rest => l ++ sep ++ join sep rest
  end.

Definition sensor_line (label : str) (kws_data : dict SensorData) (key : str) : list str :=
  match dict_get key kws_data with
  | Some t => [label ++ sd_value t ++ u " " ++ sd_unit t]
  | None => []
  end.

Definition voltage_part (kws_data : dict SensorData) (phase upper : str) : list str :=
  match dict_get (u "voltage_" ++ phase) kws_data with
  | Some v => [upper ++ u ": " ++ sd_value v ++ sd_unit v]
  | None => []
  end.

Definition format_kws_data (kws_data : option (dict SensorData)) : str :=
  match kws_data with
  | None | Some [] => u "Данные с датчиков недоступны"
  | Some d =>
    let voltages :=
      voltage_part d (u "l1") (u "L1") ++ voltage_part d (u "l2") (u "L2")
      ++ voltage_part d (u "l3") (u "L3") in
    let lines :=
      [u "<b>Данные с датчиков KWS:</b>"]
      ++ sensor_line (u "Комнатная температура: ") d (u "temperature_indoor")
      ++ sensor_line (u "Уличная температура: ") d (u "temperature_outdoor")
      ++ sensor_line (u "Влажность: ") d (u "humidity")
      ++ sensor_line (u "Батарея: ") d (u "battery")
      ++ (if is_nonempty voltages then [u "Напряжение: " ++ join (u ", ") voltages] else [])
      ++ sensor_line (u "Общая энергия: ") d (u "total_energy") in
    if (1 <? List.length lines)%nat then join nl lines
    else u "Данные временно недоступны"
  end.

(** *** Menus and outgoing messages *)

Definition is_on (d : StateObj) : bool := str_eqb (state d) (u "on").
Definition is_off (d : StateObj) : bool := str_eqb (state d) (u "off").

(** [device['attributes'].get('friendly_name', device['entity_id'])] *)
Definition friendly_name_or_id (device : StateObj) : str :=
  match friendly_name (attributes device) with
  | Some n => n
  | None => entity_id device
  end.

Definition BACK : str := u "Назад".

Definition create_house_menu (area_name : str) : M Menu :=
  devices ← get_area_devices area_name false;
  match devices with
  | [] => mret [[BACK]]
  | _ :: _ =>
    let rows :=
      List.flat_map
        (fun device =>
           let short_name := shorten_name (friendly_name_or_id device) area_name in
           let state_indicator := if is_on device then u "ВКЛ" else u "ВЫКЛ" in
           let action_text := if is_on device then u "ВЫКЛ" else u "ВКЛ" in
           [[state_indicator ++ u " " ++ short_name];
            [action_text ++ u " " ++ short_name]])
        (List.firstn 6 devices) in
    mret ([[u "Статус"; u "Данные"]] ++ rows ++ [[BACK]])
  end.

(** [houses[i:i+2] for i in range(0, len(houses), 2)] *)
Fixpoint pairs (l : list str) : list (list str) :=
  match l with
  | [] => []
  | [a] => [[a]]
  | a :: b :: r => [a; b] :: pairs r
  end.

(** [None]: [get_all_areas_list] raised. *)
Definition create_main_menu : M (option Menu) :=
  areas ← get_all_areas_list;
  match areas with
  | None => mret None
  | Some [] => mret (Some [[u "Обновить"]])
  | Some areas =>
    let houses := List.filter (contains DOMIK) areas in
    let others := List.filter (fun a => negb (contains DOMIK a)) areas in
    mret (Some (pairs houses ++ List.map (fun a => [a]) others
                ++ [[u "Обновить"; u "Статус всех"]]))
  end.

Definition MAIN : str := u "main".
Definition HOUSE : str := u "house".

(** [send_message]: any exception is caught and [False] returned.  One can
    arise while the menu is built; another in [telegram], which url-encodes
    the form data before it calls [_make_request]:
    [urllib.parse.urlencode] encodes the text as UTF-8 and raises
    UnicodeEncodeError when it holds an unpaired surrogate, so that no
    request is made.  The other fields of the form are the chat id,
    ["HTML"] and [json.dumps(menu)], which is plain ASCII. *)
Definition send_message (chat : Z) (body : str) (menu_type : str)
           (area_name : option str) : M bool :=
  menu ← match area_name with
         | Some (c :: a) =>
           if str_eqb menu_type HOUSE then
             m ← create_house_menu (c :: a); mret (Some m)
           else create_main_menu
         | _ => create_main_menu
         end;
  match menu with
  | None => mret false
  | Some menu =>
    if utf8_encodable body
    then send (SendMessage chat body menu) (fun n => telegram_send env n chat body menu)
    else mret false
  end.

(** [if not self.send_message(...): logger.error(...)] *)
Definition send_or_log (chat : Z) (body : str) (menu_type : str)
           (area_name : option str) : M unit :=
  _ ← send_message chat body menu_type area_name; mret tt.

(** *** Sessions *)

Definition set_user_state (chat : Z) (st : str) (data : option str) : M unit :=
  modify_bot (fun b =>
    set_user_states (<[chat := {| us_state := st; us_data := data |}]> (user_states b)) b).

Definition get_user_state (chat : Z) : M UserState :=
  b ← get_bot;
  mret (match user_states b !! chat with
        | Some s => s
        | None => {| us_state := MAIN; us_data := None |}
        end).

(** *** Control and reports *)

(** [control_device]: one service call; [True] iff it was answered. *)
Definition control_device (e action : str) : M bool :=
  let domain := domain_of e in
  send (TurnService domain action e) (fun n => hub_service env n domain action e).

Definition count_on (devices : list StateObj) : nat :=
  List.length (List.filter is_on devices).

Definition show_area_status (chat : Z) (area_name : str) : M unit :=
  devices ← get_area_devices area_name true;
  match devices with
  | [] =>
    send_or_log chat (u "В " ++ area_name ++ u " нет устройств") HOUSE (Some area_name)
  | _ :: _ =>
    let on_count := count_on devices in
    let header :=
      u "<b>Статус " ++ area_name ++ u "</b>" ++ nl ++ nl
      ++ u "Всего устройств: " ++ str_of_nat (List.length devices) ++ nl
      ++ u "Включено: " ++ str_of_nat on_count ++ nl
      ++ u "Выключено: " ++ str_of_nat (List.length devices - on_count) ++ nl ++ nl
      ++ u "Состояния:" in
    let status_text :=
      List.fold_left
        (fun acc device =>
           let short_name := shorten_name (friendly_name_or_id device) area_name in
           acc ++ nl ++ u "• " ++ short_name ++ u ": "
               ++ (if is_on device then u "ВКЛ" else u "ВЫКЛ"))
        devices header in
    send_or_log chat status_text HOUSE (Some area_name)
  end.

Inductive completion : Type :=
  | Done
  | Raised.

(** [Raised]: the exception of [get_all_areas_list] leaves the method. *)
Definition show_all_houses_status (chat : Z) : M completion :=
  _clear_cache;;
  areas ← load_areas_with_devices true;
  areas_list ← get_all_areas_list;
  match areas_list with
  | None => mret Raised
  | Some areas_list =>
    let '(status_text, total_devices, total_on) :=
      List.fold_left
        (fun (sums : str * nat * nat) (area : str) =>
           let '(acc, total_devices, total_on) := sums in
           let devices := dict_get_default area areas [] in
           let on_count := count_on devices in
           (acc ++ u "<b>" ++ area ++ u "</b>: " ++ str_of_nat on_count ++ u "/"
                ++ str_of_nat (List.length devices) ++ u " вкл" ++ nl,
            (total_devices + List.length devices)%nat,
            (total_on + on_count)%nat))
        areas_list (u "<b>Статус всех домиков</b>" ++ nl ++ nl, 0%nat, 0%nat) in
    send_or_log chat
      (status_text ++ nl ++ u "<b>Итого</b>: " ++ str_of_nat total_on ++ u "/"
         ++ str_of_nat total_devices ++ u " устройств включено")
      MAIN None;;
    mret Done
  end.

Definition show_kws_data (chat : Z) (area_name : str) : M unit :=
  kws_data ← get_kws_sensors_data area_name;
  send_or_log chat (format_kws_data kws_data) HOUSE (Some area_name).

Definition ON : str := u "on".
Definition OFF : str := u "off".

(** The loop of [control_single_device] over the devices of the group:
    the first device whose short name equals the requested one is
    controlled. *)
Fixpoint control_first_match (chat : Z) (action device_short_name area_name : str)
         (devices : list StateObj) : M unit :=
  match devices with
  | [] =>
    send_or_log chat (u "Устройство не найдено: " ++ device_short_name)
                HOUSE (Some area_name)
  | device :: rest =>
    let full_name := friendly_name_or_empty device in
    let short_name := shorten_name full_name area_name in
    if str_eqb short_name device_short_name then
      control_device (entity_id device) action ≫= fun success : bool =>
      if success return M unit then
        _clear_cache;;
        send_or_log chat
          (short_name ++ u " - " ++ (if str_eqb action ON then u "ВКЛ" else u "ВЫКЛ"))
          HOUSE (Some area_name)
      else
        send_or_log chat (u "Ошибка управления " ++ short_name) HOUSE (Some area_name)
    else control_first_match chat action device_short_name area_name rest
  end.

Definition control_single_device (chat : Z) (txt area_name : str) : M unit :=
  let action := if contains (u "вкл") (lower txt) then ON else OFF in
  let device_short_name := strip (device_name_pattern_sub 0 txt) in
  devices ← get_area_devices area_name false;
  control_first_match chat action device_short_name area_name devices.

Definition handle_house_commands (chat : Z) (txt area_name : str) : M unit :=
  let text_lower := lower txt in
  if str_eqb text_lower (u "назад") return M unit then
    set_user_state chat MAIN None;;
    send_or_log chat (u "<b>Выбери домик</b>") MAIN None
  else if str_eqb text_lower (u "данные") then show_kws_data chat area_name
  else if str_eqb text_lower (u "статус") then show_area_status chat area_name
  else if contains (u "вкл") text_lower || contains (u "выкл") text_lower then
    control_single_device chat txt area_name
  else send_or_log chat (u "Неизвестная команда") HOUSE (Some area_name).

(** [sum(len(devices) for devices in areas.values())] *)
Definition total_devices_of (areas : dict (list StateObj)) : nat :=
  List.fold_left (fun acc kv => (acc + List.length (snd kv))%nat) areas 0%nat.

(** The handler run when the body of [handle_message] raises. *)
Definition on_handle_error (chat : Z) : M unit :=
  send_or_log chat (u "Ошибка обработки команды") MAIN None.

(** [handle_message].  In the source the line that should open the
    reset branch,
    [if text_lower in ['/start', 'обновить', 'назад', 'статус всех']:],
    is part of the preceding comment, and the two statements after it stand
    at the level of the surrounding block: they run for every message. *)
Definition handle_message (chat : Z) (txt : str) : M unit :=
  let text_lower := lower txt in
  user_state ← get_user_state chat;
  set_user_state chat MAIN None;;
  let user_state := {| us_state := MAIN; us_data := None |} in
  when (str_eqb text_lower (u "обновить")) _clear_cache;;
  if str_eqb text_lower (u "/start") || str_eqb text_lower (u "обновить")
     return M unit then
    areas ← load_areas_with_devices true;
    let house_count := List.length (List.filter (contains DOMIK) (dict_keys areas)) in
    let total_devices := total_devices_of areas in
    send_or_log chat
      (u "<b>Управление домиками</b>" ++ nl ++ nl
       ++ u "Найдено домиков: " ++ str_of_nat house_count ++ nl
       ++ u "Всего устройств: " ++ str_of_nat total_devices ++ nl ++ nl
       ++ u "Выбери домик для управления:")
      MAIN None
  else if str_eqb text_lower (u "статус всех") return M unit then
    c ← show_all_houses_status chat;
    match c with
    | Done => mret tt
    | Raised => on_handle_error chat
    end
  else if str_eqb (us_state user_state) MAIN then
    if contains DOMIK txt || contains (u "Общие") txt return M unit then
      let area_name := txt in
      devices ← get_area_devices area_name false;
      match devices return M unit with
      | _ :: _ =>
        let on_count := count_on devices in
        let status :=
          u "<b>" ++ area_name ++ u "</b>" ++ nl ++ nl
          ++ u "Устройств: " ++ str_of_nat (List.length devices) ++ nl
          ++ u "Включено: " ++ str_of_nat on_count ++ nl
          ++ u "Выключено: " ++ str_of_nat (List.length devices - on_count) ++ nl ++ nl
          ++ u "Управление устройствами:" in
        set_user_state chat HOUSE (Some area_name);;
        send_or_log chat status HOUSE (Some area_name)
      | [] =>
        send_or_log chat (u "В " ++ area_name ++ u " нет устройств") MAIN None
      end
    else send_or_log chat (u "Выбери домик из меню") MAIN None
  else if str_eqb (us_state user_state) HOUSE then
    match us_data user_state with
    | Some area_name => handle_house_commands chat txt area_name
    | None => on_handle_error chat   (* KeyError: 'data' *)
    end
  else send_or_log chat (u "Неизвестная команда") MAIN None.

(** *** Methods for the HTTP interface *)

(** [asdict(Device(...))] *)
Record Device : Type := {
  dev_entity_id : str;
  dev_name : str;
  dev_short_name : str;
  dev_state : str;
  dev_domain : str;
  dev_attributes : Attributes
}.

Record Stats : Type := {
  stats_total : nat;     (* 'total' *)
  stats_on : nat;        (* 'on' *)
  stats_off : nat        (* 'off' *)
}.

Record AreaData : Type := {
  ad_area_name : str;
  ad_devices : list Device;
  ad_sensors : dict SensorData;
  ad_stats : Stats;
  ad_timestamp : Q
}.

Definition device_of (area_name : str) (device_data : StateObj) : Device :=
  {| dev_entity_id := entity_id device_data;
     dev_name := friendly_name_or_empty device_data;
     dev_short_name := shorten_name (friendly_name_or_empty device_data) area_name;
     dev_state := state device_data;
     dev_domain := domain_of (entity_id device_data);
     dev_attributes := attributes device_data |}.

Definition get_area_data_for_api (area_name : str) : M AreaData :=
  devices_data ← get_area_devices area_name true;
  kws_data ← get_kws_sensors_data area_name;
  let devices := List.map (device_of area_name) devices_data in
  now ← time_time;
  mret {| ad_area_name := area_name;
          ad_devices := devices;
          ad_sensors := match kws_data with
                        | Some d => d
                        | None => []
                        end;
          ad_stats := {| stats_total := List.length devices;
                         stats_on := List.length (List.filter is_on devices_data);
                         stats_off := List.length (List.filter is_off devices_data) |};
          ad_timestamp := now |}.

(** [get_device_state]; api_server.py installs an identical function
    under the same name. *)
Definition snapshot_of (e : str) (o : StateObj) : Snapshot :=
  {| snap_entity_id := e;
     snap_state := state o;
     snap_attributes := attributes o;
     snap_last_changed := last_changed o;
     snap_last_updated := last_updated o |}.

Definition get_device_state (e : str) : M (option Snapshot) :=
  answer ← send (GetState e) (fun n => hub_state env n e);
  mret (option_map (snapshot_of e) answer).

(** *** The polling loop *)

Record LoopState : Type := {
  (** the local variable [error_count] *)
  error_count : nat;
  (** ghost: how many times the loop has called [_clear_cache] *)
  invalidations : nat
}.

Definition handle_update (update : Update) : M unit :=
  modify_bot (set_last_id (update_id update));;
  match upd_message update with
  | Some msg =>
    match msg_text msg with
    | Some txt => handle_message (msg_chat_id msg) txt
    | None => mret tt
    end
  | None => mret tt
  end.

(** The [else] branch of one iteration. *)
Definition poll_failed (s : LoopState) : M LoopState :=
  let error_count := S (error_count s) in
  if (3 <? error_count)%nat return M LoopState then
    _clear_cache;;
    mret {| error_count := 0; invalidations := S (invalidations s) |}
  else mret {| error_count := error_count; invalidations := invalidations s |}.

(** One iteration of [while True] in [run_telegram_bot]. *)
Definition poll_once (s : LoopState) : M LoopState :=
  b ← get_bot;
  let offset := (last_id b + 1)%Z in
  answer ← send (GetUpdates offset) (fun n => telegram_updates env n offset);
  match answer with
  | Some r =>
    if upd_ok r return M LoopState then
      for_each (upd_result r) handle_update;;
      mret {| error_count := 0; invalidations := invalidations s |}
    else poll_failed s
  | None => poll_failed s
  end.

Fixpoint iterate (n : nat) (s : LoopState) : M LoopState :=
  match n with
  | O => mret s
  | S n' => s' ← poll_once s; iterate n' s'
  end.

(** The first [n] iterations of [run_telegram_bot]. *)
Definition run_telegram_bot (n : nat) : M LoopState :=
  iterate n {| error_count := 0; invalidations := 0 |}.
(** *** Further methods for the HTTP interface *)

(** One value of the dictionary [get_all_areas_for_api] returns. *)
Record AreaSummary : Type := {
  as_device_count : nat;              (* 'device_count' *)
  as_on_count : nat;                  (* 'on_count' *)
  as_preview_devices : list Device;   (* 'preview_devices' *)
  as_last_updated : Q                 (* 'last_updated' *)
}.

(** The loop of [get_all_areas_for_api] over [areas.items()]: the first
    four devices of each area are previewed, and the clock is read once per
    area. *)
Fixpoint summarise_areas (areas : dict (list StateObj)) (result : dict AreaSummary)
  : M (dict AreaSummary) :=
  match areas with
  | [] => mret result
  | (area_name, devices_data) :: rest =>
    let on_count := count_on devices_data in
    let devices_list := List.map (device_of area_name) (List.firstn 4 devices_data) in
    now ← time_time;
    summarise_areas rest
      (dict_set area_name
         {| as_device_count := List.length devices_data;
            as_on_count := on_count;
            as_preview_devices := devices_list;
            as_last_updated := now |}
         result)
  end.

Definition get_all_areas_for_api : M (dict AreaSummary) :=
  areas ← load_areas_with_devices true;
  summarise_areas areas [].

(** The dictionary [control_device_api] returns. *)
Inductive ControlResult : Type :=
  (** [{'success': True, 'entity_id', 'action_performed', 'current_state',
      'timestamp'}] *)
  | ControlOk (e action_performed current_state : str) (timestamp : Q)
  (** [{'success': False, 'error', 'entity_id', 'action', 'timestamp'}] *)
  | ControlFailed (error e action : str) (timestamp : Q).

Definition control_device_api (e action : str) : M ControlResult :=
  control_device e action ≫= fun success : bool =>
  if success return M ControlResult then
    updated_state ← get_device_state e;
    now ← time_time;
    mret (ControlOk e action
            (match updated_state with
             | Some s => snap_state s
             | None => u "unknown"
             end)
            now)
  else
    now ← time_time;
    mret (ControlFailed (u "Не удалось выполнить действие") e action now).

(** [run]: the connection test, the first load, then the first [n]
    iterations of the polling loop. *)
Definition run (n : nat) : M LoopState :=
  test_devices ← get_all_devices;
  areas ← load_areas_with_devices false;
  run_telegram_bot n.
End Methods.

(** ** The HTTP interface (api_server.py) *)

Module Api.
(** What evaluating [request.json] gives inside the [try] of a view.  It
    raises when the request carries no JSON body that Flask accepts (none
    at all, another content type, text that does not parse); [error] is
    the [str(e)] of that exception.  Otherwise it is the parsed value:
    [None] stands for a value the view rejects as a whole (a falsy one
    such as [null] or [{}], or an object without the key the view asks
    for), [Some] for an object whose members the view reads.  Members are
    strings where present; other JSON values are outside this model. *)
Inductive Body (A : Type) : Type :=
  | Raises (error : str)
  | Parsed (data : option A).

Arguments Raises {A} error.
Arguments Parsed {A} data.

Section Handlers.
Variable env : Env.
(** [DEBUG] and [SECRET_KEY] of config.py *)
Variable DEBUG : bool.
Variable SECRET_KEY : str.

(** What Python's [==] sees: values of different types are unequal. *)
Inductive PyValue : Type :=
  | PyNone
  | PyStr (s : str)
  | PyDict (d : Snapshot).

Definition py_eq_str (x : PyValue) (s : str) : bool :=
  match x with
  | PyStr s' => str_eqb s' s
  | PyNone | PyDict _ => false
  end.

Definition py_of_snapshot (x : option Snapshot) : PyValue :=
  match x with
  | Some d => PyDict d
  | None => PyNone
  end.

(** The JSON body of [POST /api/device/control]: the two keys read. *)
Record ControlJson : Type := {
  cj_entity_id : option str;
  cj_action : option str
}.

(** The value under ['entity_ids'] of a batch request. *)
Inductive IdsValue : Type :=
  | NotAList
  | IdList (ids : list str).

Inductive Response : Type :=
  (** [{'success': False, 'error': error}] with an HTTP status; the
      authentication errors carry the ['error'] key only *)
  | Failure (status : nat) (error : str)
  | ControlSuccess (e action_performed : str) (current_state : option Snapshot)
                   (timestamp : Q)
  | BatchSuccess (data : dict (option Snapshot)) (timestamp : Q)
  | AreaSuccess (data : AreaData) (timestamp : Q)
  | DeviceSuccess (data : option Snapshot) (timestamp : Q)
  | RefreshSuccess (timestamp : Q).

(** [@require_auth] around a view function. *)
Definition require_auth (auth_header : option str) (f : M Response) : M Response :=
  if DEBUG then f
  else match auth_header with
       | None | Some [] => mret (Failure 401 (u "Требуется авторизация"))
       | Some h =>
         if negb (str_eqb h (u "Bearer " ++ SECRET_KEY))
         then mret (Failure 403 (u "Неверный токен"))
         else f
       end.

Definition TOGGLE : str := u "toggle".

(** The view function of [POST /api/device/control].  An exception of
    [request.json] is caught by the [except] arm, which answers 500 with
    its text. *)
Definition control_device_view (body : Body ControlJson) : M Response :=
  match body with
  | Raises error => mret (Failure 500 error)
  | Parsed (Some {| cj_entity_id := Some e; cj_action := Some action |}) =>
    if negb (str_in action [ON; OFF; TOGGLE]) then
      mret (Failure 400 (u "Неверное действие"))
    else
      action ← (if str_eqb action TOGGLE return M str then
                  current_state ← get_device_state env e;
                  mret (if py_eq_str (py_of_snapshot current_state) ON then OFF else ON)
                else mret action);
      control_device env e action ≫= fun success : bool =>
      if success return M Response then
        _clear_cache;;
        updated_state ← get_device_state env e;
        now ← time_time env;
        mret (ControlSuccess e action updated_state now)
      else mret (Failure 500 (u "Не удалось выполнить действие"))
  | Parsed _ => mret (Failure 400 (u "Неверные данные"))
  end.

Definition control_device (auth_header : option str) (body : Body ControlJson)
  : M Response :=
  require_auth auth_header (control_device_view body).

(** The loop of [batch_get_devices]: [results[entity_id] = device_data].
    [get_device_state] turns every transport failure into [None] itself,
    so the per-id [except] arm has nothing to catch here. *)
Fixpoint batch_loop (ids : list str) (results : dict (option Snapshot))
  : M (dict (option Snapshot)) :=
  match ids with
  | [] => mret results
  | e :: rest =>
    device_data ← get_device_state env e;
    batch_loop rest (dict_set e device_data results)
  end.

(** The view function of [POST /api/batch/devices]; the parsed value is
    what [request.json] holds under ['entity_ids'], [None] when it is falsy
    or lacks the key.  An exception of [request.json] is caught by the
    [except] arm, which answers 500 with its text. *)
Definition batch_get_devices_view (body : Body IdsValue) : M Response :=
  match body with
  | Raises error => mret (Failure 500 error)
  | Parsed None => mret (Failure 400 (u "Неверные данные"))
  | Parsed (Some NotAList) => mret (Failure 400 (u "Слишком много устройств (максимум 20)"))
  | Parsed (Some (IdList entity_ids)) =>
    if (20 <? List.length entity_ids)%nat then
      mret (Failure 400 (u "Слишком много устройств (максимум 20)"))
    else
      results ← batch_loop entity_ids [];
      now ← time_time env;
      mret (BatchSuccess results now)
  end.

Definition batch_get_devices (auth_header : option str) (body : Body IdsValue)
  : M Response :=
  require_auth auth_header (batch_get_devices_view body).

Definition get_area (auth_header : option str) (area_name : str) : M Response :=
  require_auth auth_header
    (area_data ← get_area_data_for_api env area_name;
     now ← time_time env;
     mret (AreaSuccess area_data now)).

Definition get_device (auth_header : option str) (e : str) : M Response :=
  require_auth auth_header
    (device_data ← get_device_state env e;
     now ← time_time env;
     mret (DeviceSuccess device_data now)).

Definition refresh_cache (auth_header : option str) : M Response :=
  require_auth auth_header
    (_clear_cache;;
     now ← time_time env;
     mret (RefreshSuccess now)).
End Handlers.
End Api.

(** * Vocabulary of the properties *)

Local Open Scope nat_scope.

(** ** Statistics *)


(** ** Cache states *)

(** The state every invalidation leaves behind. *)
Definition cache_cleared (b : Bot) : Prop :=
  devices_cache b = [] /\ _all_devices b = None
  /\ _cache_timestamp b = [] /\ areas_list_memo b = None.

(** What [get_all_devices] stores when the fetch is request number [n]:
    the hub's list, or the empty list when the hub did not answer. *)
Definition fetched_at (env : Env) (n : nat) : list StateObj :=
  match hub_states env n with
  | Some l => l
  | None => []
  end.

Definition is_fetch (r : Request) : bool :=
  match r with
  | GetStates => true
  | _ => false
  end.

(** The number of full-state fetches among the requests [l]. *)
Definition fetches (l : list Request) : nat := List.length (List.filter is_fetch l).

(** No key of the grouped cache is the name under which
    [load_areas_with_devices] looks the cache up. *)
Definition cache_wf (b : Bot) : Prop := dict_mem ALL (devices_cache b) = false.

(** The world after a read that refreshed the entry from the list [l] at
    time [now]. *)
Definition refreshed (l : list StateObj) (now : Q) (w : World) : Bot :=
  set_cache_timestamp (dict_set ALL now (_cache_timestamp (bot w)))
    (set_devices_cache (grouping_of l) (set_all_devices (Some l) (bot w))).

(** The operations that read the device directory through the cache. *)
Inductive cache_op : Type :=
  | OpAllDevices
  | OpGrouping (force : bool)
  | OpLoad (force : bool)
  | OpAreaDevices (area_name : str) (force : bool).

Definition forced (op : cache_op) : bool :=
  match op with
  | OpAllDevices => false
  | OpGrouping f | OpLoad f | OpAreaDevices _ f => f
  end.

(** Runs the operation and tells whether what it returned is empty. *)
Definition run_op (env : Env) (op : cache_op) : M bool :=
  match op with
  | OpAllDevices => l ← get_all_devices env; mret (negb (is_nonempty l))
  | OpGrouping f => g ← manual_area_grouping env f; mret (negb (is_nonempty g))
  | OpLoad f => g ← load_areas_with_devices env f; mret (negb (is_nonempty g))
  | OpAreaDevices a f => l ← get_area_devices env a f; mret (negb (is_nonempty l))
  end.

(** Runs the operations in turn and tells whether all results were empty. *)
Fixpoint run_ops (env : Env) (ops : list cache_op) : M bool :=
  match ops with
  | [] => mret true
  | op :: rest =>
    run_op env op ≫= fun e : bool =>
    run_ops env rest ≫= fun es : bool =>
    mret (e && es)
  end.

(** ** Names *)

(** The names in the list are pairwise different. *)
Fixpoint distinct (l : list str) : bool :=
  match l with
  | [] => true
  | x :: r => negb (str_in x r) && distinct r
  end.

(** ** Grouping *)

(** The patterns compiled for group [k]. *)
Definition patterns_of (k : nat) : list regex :=
  dict_get_default (house_name k) HOUSE_PATTERNS [].

(** Some pattern of group [k] matches the display name, case being
    ignored. *)
Definition house_matches (k : nat) (name : str) : bool :=
  any_pattern_matches (patterns_of k) (lower name).

(** The device is controllable and its display name is assigned to [g]. *)
Definition assigned_to (g : str) (d : StateObj) : bool :=
  _is_controllable_device (entity_id d)
  && str_eqb (_assign_device_to_house (friendly_name_or_empty d)) g.

(** ** Polling *)

(** The poll sent as request number [n] with offset [offset] fails: no
    answer, or an answer whose [ok] is false. *)
Definition poll_fails (env : Env) (n : nat) (offset : Z) : bool :=
  match telegram_updates env n offset with
  | Some r => negb (upd_ok r)
  | None => true
  end.

Definition next_offset (w : World) : Z := (last_id (bot w) + 1)%Z.

(** The world after one poll that delivered nothing. *)
Definition after_poll (w : World) : World :=
  {| bot := bot w; calls := calls w ++ [GetUpdates (next_offset w)]; ticks := ticks w |}.

Fixpoint after_polls (k : nat) (w : World) : World :=
  match k with
  | O => w
  | S k' => after_polls k' (after_poll w)
  end.

(** ** The HTTP interface *)

(** The request passes [require_auth]. *)
Definition authorized (DEBUG : bool) (SECRET_KEY : str) (auth_header : option str) : bool :=
  DEBUG || match auth_header with
           | Some h => str_eqb h (u "Bearer " ++ SECRET_KEY)
           | None => false
           end.

Definition TOO_MANY : str := u "Слишком много устройств (максимум 20)".

(** ** Scenarios *)

Definition fresh : World := {| bot := init; calls := []; ticks := 0 |}.

Definition lamp : str := u "light.lamp".

Definition lamp_obj (st : str) : StateObj :=
  {| entity_id := lamp; state := st;
     attributes := {| friendly_name := Some (u "Домик 1 Лампа");
                      unit_of_measurement := None |};
     last_changed := u "2025-01-01T00:00:00+00:00";
     last_updated := u "2025-01-01T00:00:00+00:00" |}.

(** A hub with one lamp that is on and stays on; every request is answered;
    no chat message arrives. *)
Definition lamp_on_env : Env :=
  {| hub_states := fun _ => Some [lamp_obj ON];
     hub_state := fun _ e => if str_eqb e lamp then Some (lamp_obj ON) else None;
     hub_service := fun _ _ _ _ => true;
     telegram_send := fun _ _ _ _ => true;
     telegram_updates := fun _ _ => Some {| upd_ok := true; upd_result := [] |};
     clock := fun n => inject_Z (Z.of_nat n);
     float_ok := fun _ => false |}.

(** Nothing answers: hub and messaging platform are unreachable. *)
Definition unreachable_env : Env :=
  {| hub_states := fun _ => None;
     hub_state := fun _ _ => None;
     hub_service := fun _ _ _ _ => false;
     telegram_send := fun _ _ _ _ => false;
     telegram_updates := fun _ _ => None;
     clock := fun n => inject_Z (Z.of_nat n);
     float_ok := fun _ => false |}.

Definition toggle_lamp : Api.Body Api.ControlJson :=
  Api.Parsed (Some {| Api.cj_entity_id := Some lamp; Api.cj_action := Some Api.TOGGLE |}).

(** [n] entity ids [light.1 .. light.n]. *)
Definition some_ids (n : nat) : list str :=
  List.map (fun i => u "light." ++ str_of_nat i) (List.seq 1 n).

(** A hub whose lamp is switched off after the first request, and a clock
    that advances by 100 seconds per reading. *)
Definition switched_off_env : Env :=
  {| hub_states := fun n => Some [lamp_obj (if (n =? 0)%nat then ON else OFF)];
     hub_state := hub_state lamp_on_env;
     hub_service := hub_service lamp_on_env;
     telegram_send := telegram_send lamp_on_env;
     telegram_updates := telegram_updates lamp_on_env;
     clock := fun n => inject_Z (100 * Z.of_nat n);
     float_ok := float_ok lamp_on_env |}.

(** ** Short names *)

Definition DOTS : str := u "...".
Definition PLACEHOLDER : str := u "Устройство".

(** The string does not start with white space. *)
Definition head_not_space (s : str) : Prop :=
  match s with
  | [] => True
  | c :: _ => is_space c = false
  end.

(** The string neither starts nor ends with white space. *)
Definition trimmed (s : str) : bool :=
  match s with
  | [] => true
  | c :: _ => negb (is_space c)
  end
  && match List.rev s with
     | [] => true
     | c :: _ => negb (is_space c)
     end.

(** Every white-space character of the string is a single blank that
    follows no other white space ([in_ws]: the character before the string
    was white space). *)
Fixpoint single_spaced (in_ws : bool) (s : str) : bool :=
  match s with
  | [] => true
  | c :: s' =>
    if is_space c then negb in_ws && (c =? SP)%N && single_spaced true s'
    else single_spaced false s'
  end.

(** The group label does not occur in the string (case ignored); an empty
    label is never removed. *)
Definition label_absent (area_name s : str) : bool :=
  negb (is_nonempty area_name) || negb (occurs_with ci_eqb area_name s).

(** None of the words occurs in the string. *)
Definition words_absent (words : list str) (s : str) : bool :=
  List.forallb (fun w => negb (contains w s)) words.

(** ** What a method may do to the world *)

(** The requests the chat side may send while it answers [chat]: the
    full-state fetch and messages to that chat. *)
Definition fetch_or_message (chat : Z) (r : Request) : bool :=
  match r with
  | GetStates => true
  | SendMessage c _ _ => (c =? chat)%Z
  | _ => false
  end.

(** The request log of [w'] extends that of [w] by requests satisfying
    [P]. *)
Definition grows_by (P : Request -> bool) (w w' : World) : Prop :=
  exists new, calls w' = calls w ++ new /\ List.forallb P new = true.

(** Only requests satisfying [P] are sent and the update offset is kept. *)
Definition calm (P : Request -> bool) (w w' : World) : Prop :=
  grows_by P w w' /\ last_id (bot w') = last_id (bot w).

(** Calm, and the sessions are kept as well. *)
Definition quiet (P : Request -> bool) (w w' : World) : Prop :=
  calm P w w' /\ user_states (bot w') = user_states (bot w).

(** The text names a group: it contains "Домик" or "Общие". *)
Definition selects_group (txt : str) : bool :=
  contains DOMIK txt || contains (u "Общие") txt.

Definition main_session : UserState := {| us_state := MAIN; us_data := None |}.

Definition house_session (area_name : str) : UserState :=
  {| us_state := HOUSE; us_data := Some area_name |}.

(** Chat 7 has chosen the group "Домик 1", which holds the lamp. *)
Definition in_group_world : World :=
  (handle_message lamp_on_env 7 (u "Домик 1") fresh).2.

(** The reply to a text the root session does not understand, and the
    root keyboard of a hub with the one lamp. *)
Definition CHOOSE : str := u "Выбери домик из меню".

Definition root_menu : Menu := [[u "Домик 1"]; [u "Обновить"; u "Статус всех"]].

(** The sessions are kept, or the text names a group and the session of
    [chat] has entered it. *)
Definition session_step (chat : Z) (txt : str) (w w' : World) : Prop :=
  user_states (bot w') = user_states (bot w)
  \/ (selects_group txt = true
      /\ user_states (bot w') = <[chat := house_session txt]> (user_states (bot w))).

(** ** More scenarios *)

(** [update_id] of the last update, or [d] when there is none. *)
Definition last_update_id (d : Z) (us : list Update) : Z :=
  List.last (List.map update_id us) d.

(** ** Control from the chat *)

(** The device's short name in the group is the requested one. *)
Definition short_name_is (area_name target : str) (d : StateObj) : bool :=
  str_eqb (shorten_name (friendly_name_or_empty d) area_name) target.

(** The two keyboard rows of one device in a group menu. *)
Definition device_rows (area_name : str) (device : StateObj) : list (list str) :=
  let short_name := shorten_name (friendly_name_or_id device) area_name in
  [[(if is_on device then u "ВКЛ" else u "ВЫКЛ") ++ u " " ++ short_name];
   [(if is_on device then u "ВЫКЛ" else u "ВКЛ") ++ u " " ++ short_name]].

(** ** The invariant of the grouped cache *)

(** Run from a world whose grouped cache is well keyed, [m] ends in such a
    world and returns a value satisfying [Q]. *)
Definition keeps_wf {A} (m : M A) (Q : A -> Prop) : Prop :=
  forall w, cache_wf (bot w) -> cache_wf (bot (m w).2) /\ Q (m w).1.

Definition any {A} (a : A) : Prop := True.

(** ** Entry points *)

(** What the outside world can make the bot do: start the polling loop,
    deliver one chat message, call one HTTP route of api_server.py, or
    call one of the two API-side methods of the bot directly. *)
Inductive entry : Type :=
  | Run (polls : nat)
  | ChatMessage (chat : Z) (txt : str)
  | RouteArea (auth_header : option str) (area_name : str)
  | RouteDevice (auth_header : option str) (e : str)
  | RouteControl (auth_header : option str) (body : Api.Body Api.ControlJson)
  | RouteBatch (auth_header : option str) (body : Api.Body Api.IdsValue)
  | RouteRefresh (auth_header : option str)
  | AreasForApi
  | ControlDeviceApi (e action : str).

Definition enter (env : Env) (DEBUG : bool) (SECRET_KEY : str) (c : entry) : M unit :=
  match c with
  | Run n => run env n;; mret tt
  | ChatMessage chat txt => handle_message env chat txt
  | RouteArea h a => Api.get_area env DEBUG SECRET_KEY h a;; mret tt
  | RouteDevice h e => Api.get_device env DEBUG SECRET_KEY h e;; mret tt
  | RouteControl h d => Api.control_device env DEBUG SECRET_KEY h d;; mret tt
  | RouteBatch h d => Api.batch_get_devices env DEBUG SECRET_KEY h d;; mret tt
  | RouteRefresh h => Api.refresh_cache env DEBUG SECRET_KEY h;; mret tt
  | AreasForApi => get_all_areas_for_api env;; mret tt
  | ControlDeviceApi e action => control_device_api env e action;; mret tt
  end.

Definition enter_all (env : Env) (DEBUG : bool) (SECRET_KEY : str) (cs : list entry)
  : M unit :=
  for_each cs (enter env DEBUG SECRET_KEY).

(** ** The list of areas *)

(** Every way of dropping elements from [l], keeping the order. *)
Fixpoint sublists {A} (l : list A) : list (list A) :=
  match l with
  | [] => [[]]
  | x :: l' => List.map (cons x) (sublists l') ++ sublists l'
  end.

(** The list [get_all_areas_list] builds from the keys of the grouping;
    [None] where the sort key of some house raises. *)
Definition listing_of (areas : list str) : option (list str) :=
  match with_int_keys (List.filter (contains DOMIK) areas) with
  | None => None
  | Some keyed =>
    Some (List.map snd (sort_by_key keyed)
          ++ List.filter (fun a => negb (contains DOMIK a)) areas)
  end.

Definition listing_is_identity (areas : list str) : bool :=
  bool_decide (listing_of areas = Some areas).

(** ** The root keyboard *)

Definition REFRESH : str := u "Обновить".
Definition STATUS_ALL : str := u "Статус всех".

(** Each row of the keyboard carries one or two buttons. *)
Definition row_ok (row : list str) : bool :=
  (1 <=? List.length row)%nat && (List.length row <=? 2)%nat.

(** The keyboard [create_main_menu] builds from a list of areas. *)
Definition main_menu_of (areas : list str) : Menu :=
  match areas with
  | [] => [[REFRESH]]
  | _ :: _ =>
    pairs (List.filter (contains DOMIK) areas)
    ++ List.map (fun a => [a]) (List.filter (fun a => negb (contains DOMIK a)) areas)
    ++ [[REFRESH; STATUS_ALL]]
  end.

(** Read row by row, the keyboard shows the areas in their order and then
    the two command buttons; it has at most seven rows. *)
Definition main_menu_shape (areas : list str) : bool :=
  let menu := main_menu_of areas in
  bool_decide (List.concat menu
               = match areas with
                 | [] => [REFRESH]
                 | _ :: _ => areas ++ [REFRESH; STATUS_ALL]
                 end)
  && List.forallb row_ok menu
  && (List.length menu <=? 7)%nat.

(** * Properties *)


(** ** Running state-passing code *)

Lemma run_bind {A B} (m : M A) (k : A -> M B) (w : World) :
  (m ≫= k) w = k (m w).1 (m w).2.
Proof. unfold mbind, M_bind. destruct (m w); reflexivity. Qed.

Lemma run_ret {A} (a : A) (w : World) : @mret M _ A a w = (a, w).
Proof. reflexivity. Qed.

Lemma run_get_bot (w : World) : get_bot w = (bot w, w).
Proof. reflexivity. Qed.

Lemma run_time_time (env : Env) (w : World) :
  time_time env w
  = (clock env (ticks w), {| bot := bot w; calls := calls w; ticks := S (ticks w) |}).
Proof. reflexivity. Qed.

Lemma run_modify_bot (f : Bot -> Bot) (w : World) :
  modify_bot f w = (tt, {| bot := f (bot w); calls := calls w; ticks := ticks w |}).
Proof. reflexivity. Qed.

Ltac run := repeat (rewrite ?run_bind, ?run_ret; cbn [fst snd]).

(** [run], also through the primitive reads and writes of the world. *)
Ltac run_all :=
  repeat (rewrite ?run_bind, ?run_ret, ?run_get_bot, ?run_time_time, ?run_modify_bot;
          cbn [fst snd bot calls ticks]).

(** ** Strings *)

Lemma str_eqb_refl (a : str) : str_eqb a a = true.
Proof. induction a as [|c a IH]; cbn; [reflexivity|]. now rewrite N.eqb_refl, IH. Qed.

Lemma str_eqb_eq (a b : str) : str_eqb a b = true <-> a = b.
Proof.
  split; [|intros ->; apply str_eqb_refl].
  revert b; induction a as [|c a IH]; intros [|d b]; cbn; try easy.
  intros [Hc Hab]%andb_prop. apply N.eqb_eq in Hc. f_equal; auto.
Qed.

Lemma str_eqb_neq (a b : str) : str_eqb a b = false <-> a <> b.
Proof.
  rewrite <- str_eqb_eq. destruct (str_eqb a b); split; congruence.
Qed.

(** ** C10: the statistics of the per-area response *)

Section AreaStats.
Variable env : Env.




End AreaStats.

(** ** C4: the failure counter of the polling loop *)

Lemma clear_cache_spec (w : World) :
  _clear_cache w
  = (tt, {| bot := set_areas_list_memo None
                     (set_cache_timestamp []
                        (set_all_devices None (set_devices_cache [] (bot w))));
            calls := calls w; ticks := ticks w |}).
Proof. reflexivity. Qed.

Lemma clear_cache_cleared (w : World) : cache_cleared (bot (_clear_cache w).2).
Proof. rewrite clear_cache_spec. repeat split. Qed.

Section PollingLoop.
Variable env : Env.

Lemma poll_once_failure (s : LoopState) (w : World) :
  poll_fails env (List.length (calls w)) (next_offset w) = true ->
  poll_once env s w = poll_failed s (after_poll w).
Proof.
  unfold poll_fails, poll_once, next_offset. intros H. run.
  unfold send. cbn [fst snd].
  destruct (telegram_updates env _ _) as [r|]; [|reflexivity].
  destruct (upd_ok r); [discriminate|reflexivity].
Qed.

Lemma poll_once_success (s : LoopState) (w : World) :
  poll_fails env (List.length (calls w)) (next_offset w) = false ->
  (poll_once env s w).1 = {| error_count := 0; invalidations := invalidations s |}.
Proof.
  unfold poll_fails, poll_once, next_offset. intros H. run.
  unfold send. cbn [fst snd].
  destruct (telegram_updates env _ _) as [r|]; [|discriminate].
  destruct (upd_ok r); [|discriminate]. run. reflexivity.
Qed.

Lemma poll_failed_below (s : LoopState) (w : World) :
  error_count s < 3 ->
  poll_failed s w
  = ({| error_count := S (error_count s); invalidations := invalidations s |}, w).
Proof.
  intros H. unfold poll_failed.
  destruct (Nat.ltb_spec 3 (S (error_count s))); [lia|reflexivity].
Qed.

Lemma poll_failed_fourth (s : LoopState) (w : World) :
  error_count s = 3 ->
  poll_failed s w
  = ({| error_count := 0; invalidations := S (invalidations s) |}, (_clear_cache w).2).
Proof.
  intros H. unfold poll_failed. rewrite H. cbn [Nat.ltb Nat.leb]. run. reflexivity.
Qed.

Lemma after_polls_calls (k : nat) (w : World) :
  List.length (calls (after_polls k w)) = List.length (calls w) + k
  /\ next_offset (after_polls k w) = next_offset w
  /\ bot (after_polls k w) = bot w.
Proof.
  revert w; induction k as [|k IH]; intros w; cbn [after_polls].
  - repeat split; lia.
  - destruct (IH (after_poll w)) as (H1 & H2 & H3).
    rewrite H1, H2, H3. cbn. rewrite List.length_app. cbn. repeat split; lia.
Qed.

(** [k] failing polls in a row, while the counter stays below the
    threshold: the counter grows by [k] and nothing else happens. *)
Lemma iterate_failures (k : nat) (s : LoopState) (w : World) :
  error_count s + k <= 3 ->
  (forall i, i < k -> poll_fails env (List.length (calls w) + i) (next_offset w) = true) ->
  iterate env k s w
  = ({| error_count := error_count s + k; invalidations := invalidations s |},
     after_polls k w).
Proof.
  revert s w; induction k as [|k IH]; intros s w Hle Hfail; cbn [iterate after_polls].
  - rewrite run_ret. destruct s; cbn. now rewrite Nat.add_0_r.
  - rewrite run_bind, poll_once_failure
      by (specialize (Hfail 0 ltac:(lia)); now rewrite Nat.add_0_r in Hfail).
    rewrite poll_failed_below by lia. cbn [fst snd].
    rewrite IH.
    + cbn [error_count invalidations]. do 2 f_equal. lia.
    + cbn [error_count]. lia.
    + intros i Hi. cbn [after_poll calls]. rewrite List.length_app. cbn [List.length].
      specialize (Hfail (S i) ltac:(lia)).
      replace (List.length (calls w) + 1 + i) with (List.length (calls w) + S i) by lia.
      exact Hfail.
Qed.

Lemma iterate_S (n : nat) (s : LoopState) (w : World) :
  iterate env (S n) s w = iterate env n (poll_once env s w).1 (poll_once env s w).2.
Proof. cbn [iterate]. now rewrite run_bind. Qed.

Lemma iterate_succ_r (n : nat) (s : LoopState) (w : World) :
  iterate env (S n) s w = poll_once env (iterate env n s w).1 (iterate env n s w).2.
Proof.
  revert s w; induction n as [|n IH]; intros s w.
  - rewrite iterate_S. cbn [iterate]. rewrite !run_ret. cbn [fst snd].
    destruct (poll_once env s w); reflexivity.
  - rewrite iterate_S, IH, <- iterate_S. reflexivity.
Qed.

(** C4, as the code has it.  Starting from a counter at zero, the first
    three consecutive failing polls only count (no invalidation, the counter
    is the number of failures); the fourth consecutive failure triggers one
    full cache invalidation and resets the counter to zero; and a successful
    poll resets the counter without invalidating. *)
Theorem four_failures_invalidate_once (s : LoopState) (w : World) :
  error_count s = 0 ->
  (forall i, i < 4 -> poll_fails env (List.length (calls w) + i) (next_offset w) = true) ->
  (forall k, k < 4 ->
     (iterate env k s w).1 = {| error_count := k; invalidations := invalidations s |}
     /\ bot (iterate env k s w).2 = bot w)
  /\ (iterate env 4 s w).1
     = {| error_count := 0; invalidations := S (invalidations s) |}
  /\ cache_cleared (bot (iterate env 4 s w).2)
  /\ (forall s1 w1,
        poll_fails env (List.length (calls w1)) (next_offset w1) = false ->
        (poll_once env s1 w1).1
        = {| error_count := 0; invalidations := invalidations s1 |}).
Proof.
  intros H0 Hfail.
  assert (Hk : forall k, k <= 3 ->
    iterate env k s w
    = ({| error_count := k; invalidations := invalidations s |}, after_polls k w)).
  { intros k Hk. rewrite iterate_failures; [now rewrite H0| lia |].
    intros i Hi. apply Hfail. lia. }
  split; [|split; [|split]].
  - intros k Hk'. rewrite Hk by lia. cbn [fst snd]. split; [reflexivity|].
    apply after_polls_calls.
  - rewrite iterate_succ_r, Hk by lia. cbn [fst snd].
    destruct (after_polls_calls 3 w) as (H1 & H2 & _).
    rewrite poll_once_failure by (rewrite H1, H2; apply Hfail; lia).
    now rewrite poll_failed_fourth.
  - rewrite iterate_succ_r, Hk by lia. cbn [fst snd].
    destruct (after_polls_calls 3 w) as (H1 & H2 & _).
    rewrite poll_once_failure by (rewrite H1, H2; apply Hfail; lia).
    rewrite poll_failed_fourth by reflexivity. cbn [snd].
    apply clear_cache_cleared.
  - intros s1 w1. apply poll_once_success.
Qed.

End PollingLoop.

Lemma four_failures_invalidate_once_witness :
  error_count {| error_count := 0; invalidations := 0 |} = 0
  /\ (forall i, i < 4 ->
        poll_fails unreachable_env (List.length (calls fresh) + i) (next_offset fresh) = true)
  /\ (iterate unreachable_env 4 {| error_count := 0; invalidations := 0 |} fresh).1
     = {| error_count := 0; invalidations := 1 |}.
Proof.
  refine (conj eq_refl (conj (fun i _ => eq_refl) _)).
  exact (proj1 (proj2 (four_failures_invalidate_once unreachable_env
                         {| error_count := 0; invalidations := 0 |} fresh
                         eq_refl (fun i _ => eq_refl)))).
Defined.

(** C4 as stated fails: after exactly three consecutive failing polls the
    loop has invalidated nothing and its counter stands at three. *)
Lemma three_failures_do_not_invalidate :
  let s := (run_telegram_bot unreachable_env 3 fresh).1 in
  (forall i, i < 3 ->
     poll_fails unreachable_env (List.length (calls fresh) + i) (next_offset fresh) = true)
  /\ invalidations s = 0 /\ error_count s = 3
  /\ ~ (invalidations s = 1 /\ error_count s = 0).
Proof.
  vm_compute. repeat split; try reflexivity. intros [H _]. discriminate H.
Qed.

(** ** Ordered dictionaries *)

Section DictFacts.
Context {V : Type}.

Lemma dict_get_set_eq (k : str) (v : V) (d : dict V) :
  dict_get k (dict_set k v d) = Some v.
Proof.
  induction d as [|[k' v'] d IH]; cbn.
  - now rewrite str_eqb_refl.
  - destruct (str_eqb k k') eqn:E; cbn; rewrite E; [reflexivity|exact IH].
Qed.

Lemma dict_get_set_ne (k k' : str) (v : V) (d : dict V) :
  k <> k' -> dict_get k' (dict_set k v d) = dict_get k' d.
Proof.
  intros Hne. induction d as [|[k0 v0] d IH]; cbn.
  - apply str_eqb_neq in Hne.
    destruct (str_eqb k' k) eqn:E; [|reflexivity].
    apply str_eqb_eq in E. subst. now rewrite str_eqb_refl in Hne.
  - destruct (str_eqb k k0) eqn:E; cbn.
    + apply str_eqb_eq in E. subst k0.
      destruct (str_eqb k' k) eqn:E'; [|reflexivity].
      apply str_eqb_eq in E'. congruence.
    + destruct (str_eqb k' k0); [reflexivity|exact IH].
Qed.

Lemma dict_mem_true (k : str) (d : dict V) :
  dict_mem k d = true <-> exists v, dict_get k d = Some v.
Proof.
  unfold dict_mem. destruct (dict_get k d) as [v|]; split; try easy.
  - eauto.
  - now intros [v Hv].
Qed.
End DictFacts.

(** ** C2: the toggle action of the HTTP interface *)

Section Toggle.
Variable env : Env.

Lemma py_eq_str_snapshot (x : option Snapshot) (s : str) :
  Api.py_eq_str (Api.py_of_snapshot x) s = false.
Proof. destruct x; reflexivity. Qed.

Lemma get_device_state_spec (e : str) (w : World) :
  get_device_state env e w
  = (option_map (snapshot_of e) (hub_state env (List.length (calls w)) e),
     {| bot := bot w; calls := calls w ++ [GetState e]; ticks := ticks w |}).
Proof. reflexivity. Qed.

Lemma control_device_spec (e action : str) (w : World) :
  control_device env e action w
  = (hub_service env (List.length (calls w)) (domain_of e) action e,
     {| bot := bot w; calls := calls w ++ [TurnService (domain_of e) action e];
        ticks := ticks w |}).
Proof. reflexivity. Qed.

(** Whatever the hub reports for the entity, a toggle request issues the
    "on" command. *)
Lemma toggle_always_turns_on (e : str) (w : World) :
  let request :=
    Api.Parsed (Some {| Api.cj_entity_id := Some e; Api.cj_action := Some Api.TOGGLE |}) in
  let answered := hub_service env (S (List.length (calls w))) (domain_of e) ON e in
  let out := Api.control_device_view env request w in
  calls out.2
  = calls w ++ [GetState e; TurnService (domain_of e) ON e]
      ++ (if answered then [GetState e] else [])
  /\ (if answered
      then exists st now, out.1 = Api.ControlSuccess e ON st now
      else out.1 = Api.Failure 500 (u "Не удалось выполнить действие")).
Proof.
  cbn zeta. unfold Api.control_device_view.
  change (negb (str_in Api.TOGGLE [ON; OFF; Api.TOGGLE])) with false.
  change (str_eqb Api.TOGGLE Api.TOGGLE) with true. cbv iota.
  rewrite !run_bind, get_device_state_spec. cbn [fst snd].
  rewrite run_ret, py_eq_str_snapshot. cbn [fst snd].
  rewrite !control_device_spec. cbn [fst snd calls].
  rewrite List.length_app. cbn [List.length]. rewrite Nat.add_1_r.
  destruct (hub_service env _ _ _ _).
  - rewrite !run_bind, clear_cache_spec. cbn [fst snd].
    rewrite get_device_state_spec. cbn [fst snd calls].
    unfold time_time. rewrite run_ret. cbn [fst snd calls].
    split; [now rewrite <- !List.app_assoc|]. eauto.
  - rewrite run_ret. cbn [fst snd calls]. split; [|reflexivity].
    now rewrite List.app_nil_r, <- List.app_assoc.
Qed.
End Toggle.

(** C2, evaluated on a lamp the hub reports as "on": the toggle request
    reads the state, issues the command turn_on (not turn_off), and the
    response reports action_performed = "on". *)
Theorem toggle_of_lamp_that_is_on :
  let out := Api.control_device lamp_on_env false (u "key") (Some (u "Bearer key"))
               toggle_lamp fresh in
  option_map state (hub_state lamp_on_env 0 lamp) = Some ON
  /\ calls out.2 = [GetState lamp; TurnService (u "light") ON lamp; GetState lamp]
  /\ out.1 = Api.ControlSuccess lamp ON (Some (snapshot_of lamp (lamp_obj ON))) 0%Q.
Proof. vm_compute. repeat split. Qed.

(** ** C8: the size limit of the batch endpoint *)

Section Batch.
Variable env : Env.
Variable DEBUG : bool.
Variable SECRET_KEY : str.

Lemma require_auth_authorized (auth_header : option str) (f : M Api.Response) :
  authorized DEBUG SECRET_KEY auth_header = true ->
  Api.require_auth DEBUG SECRET_KEY auth_header f = f.
Proof.
  unfold authorized, Api.require_auth. destruct DEBUG; [reflexivity|]. cbn [orb].
  destruct auth_header as [[|c h]|]; try discriminate.
  intros ->. reflexivity.
Qed.

(** The loop queries the ids in order and touches nothing but the request
    log; each entry of the result is the answer to one of the queries or was
    there before. *)
Lemma batch_loop_spec (ids : list str) (results : dict (option Snapshot)) (w : World) :
  let out := Api.batch_loop env ids results w in
  out.2 = {| bot := bot w; calls := calls w ++ List.map GetState ids; ticks := ticks w |}
  /\ (forall e, dict_mem e out.1 = true <-> dict_mem e results = true \/ In e ids)
  /\ (forall e r, dict_get e out.1 = Some r ->
        dict_get e results = Some r
        \/ exists i, ids !! i = Some e
             /\ r = option_map (snapshot_of e)
                               (hub_state env (List.length (calls w) + i) e)).
Proof.
  revert results w; induction ids as [|e0 ids IH]; intros results w; cbn zeta.
  - cbn. rewrite List.app_nil_r. destruct w; cbn. repeat split; auto.
    + intros [H|[]]; exact H.
  - cbn [Api.batch_loop]. rewrite run_bind, get_device_state_spec. cbn [fst snd].
    set (w1 := {| bot := bot w; calls := calls w ++ [GetState e0]; ticks := ticks w |}).
    set (r0 := option_map (snapshot_of e0) (hub_state env (List.length (calls w)) e0)).
    destruct (IH (dict_set e0 r0 results) w1) as (Hw & Hmem & Hget). cbn zeta in *.
    split; [|split].
    + rewrite Hw. subst w1. cbn. now rewrite <- List.app_assoc.
    + intros e. rewrite Hmem. cbn [In].
      destruct (decide (e0 = e)) as [->|Hne].
      * unfold dict_mem at 1. rewrite dict_get_set_eq. tauto.
      * unfold dict_mem at 1 2. rewrite dict_get_set_ne by exact Hne. tauto.
    + intros e r Hr. destruct (Hget e r Hr) as [H|(i & Hi & Hri)].
      * destruct (decide (e0 = e)) as [->|Hne].
        -- rewrite dict_get_set_eq in H. injection H as <-.
           right. exists 0. split; [reflexivity|]. subst r0. now rewrite Nat.add_0_r.
        -- rewrite dict_get_set_ne in H by exact Hne. now left.
      * right. exists (S i). split; [exact Hi|].
        rewrite Hri. subst w1. cbn [calls]. rewrite List.length_app. cbn [List.length].
        do 2 f_equal. lia.
Qed.

(** C8. For an authorised request whose [entity_ids] is a list:
    with more than 20 ids the answer is the validation error (status 400)
    and no request at all has been sent to the hub; with at most 20 ids the
    answer is a success whose data has exactly the requested ids as keys,
    the hub has been asked once per id in order, and the entry of an id is
    the snapshot built from the hub's answer to one of its queries, or the
    null entry when that query failed. *)
Theorem batch_limit_20 (auth_header : option str) (ids : list str) (w : World) :
  authorized DEBUG SECRET_KEY auth_header = true ->
  let out := Api.batch_get_devices env DEBUG SECRET_KEY auth_header
               (Api.Parsed (Some (Api.IdList ids))) w in
  if 20 <? List.length ids then
    out.1 = Api.Failure 400 TOO_MANY /\ out.2 = w
  else
    exists data now,
      out.1 = Api.BatchSuccess data now
      /\ calls out.2 = calls w ++ List.map GetState ids
      /\ bot out.2 = bot w
      /\ (forall e, dict_mem e data = true <-> In e ids)
      /\ (forall e r, dict_get e data = Some r ->
            exists i, ids !! i = Some e
              /\ r = option_map (snapshot_of e)
                                (hub_state env (List.length (calls w) + i) e)).
Proof.
  intros Hauth. cbn zeta. unfold Api.batch_get_devices.
  rewrite require_auth_authorized by exact Hauth.
  unfold Api.batch_get_devices_view.
  destruct (20 <? List.length ids); [unfold TOO_MANY; rewrite run_ret; split; reflexivity|].
  rewrite !run_bind.
  destruct (batch_loop_spec ids [] w) as (Hw & Hmem & Hget). cbn zeta in *.
  unfold time_time. rewrite run_ret. cbn [fst snd]. rewrite Hw. cbn [calls bot].
  eexists _, _. split; [reflexivity|]. split; [reflexivity|]. split; [reflexivity|].
  split.
  - intros e. rewrite Hmem. cbn. intuition discriminate.
  - intros e r Hr. destruct (Hget e r Hr) as [H|H]; [discriminate H|exact H].
Qed.
End Batch.

Lemma batch_limit_20_witness :
  authorized false (u "key") (Some (u "Bearer key")) = true
  /\ (let out := Api.batch_get_devices lamp_on_env false (u "key") (Some (u "Bearer key"))
                   (Api.Parsed (Some (Api.IdList (some_ids 21)))) fresh in
      out.1 = Api.Failure 400 TOO_MANY /\ out.2 = fresh).
Proof.
  refine (conj eq_refl _).
  exact (batch_limit_20 lamp_on_env false (u "key") (Some (u "Bearer key"))
           (some_ids 21) fresh eq_refl).
Defined.

(** ** The cache layer *)

Section Cache.
Variable env : Env.

Lemma get_all_devices_hit (l : list StateObj) (w : World) :
  _all_devices (bot w) = Some l -> get_all_devices env w = (l, w).
Proof. intros H. unfold get_all_devices, get_bot. run. now rewrite H. Qed.

Lemma get_all_devices_miss (w : World) :
  _all_devices (bot w) = None ->
  get_all_devices env w
  = (fetched_at env (List.length (calls w)),
     {| bot := set_all_devices (Some (fetched_at env (List.length (calls w)))) (bot w);
        calls := calls w ++ [GetStates]; ticks := ticks w |}).
Proof. intros H. unfold get_all_devices, get_bot. run. now rewrite H. Qed.

Lemma grouping_hit (l : list StateObj) (w : World) :
  _all_devices (bot w) = Some l ->
  manual_area_grouping env false w = (grouping_of l, w).
Proof.
  intros H. unfold manual_area_grouping, when. run.
  now rewrite get_all_devices_hit with (l := l).
Qed.

Lemma grouping_miss (w : World) :
  _all_devices (bot w) = None ->
  manual_area_grouping env false w
  = (grouping_of (fetched_at env (List.length (calls w))),
     {| bot := set_all_devices (Some (fetched_at env (List.length (calls w)))) (bot w);
        calls := calls w ++ [GetStates]; ticks := ticks w |}).
Proof.
  intros H. unfold manual_area_grouping, when. run.
  now rewrite get_all_devices_miss.
Qed.

Lemma grouping_forced (w : World) :
  manual_area_grouping env true w
  = (grouping_of (fetched_at env (List.length (calls w))),
     {| bot := set_all_devices (Some (fetched_at env (List.length (calls w)))) (bot w);
        calls := calls w ++ [GetStates]; ticks := ticks w |}).
Proof.
  unfold manual_area_grouping, when. run.
  rewrite get_all_devices_miss by reflexivity. reflexivity.
Qed.

(** A forced read always fetches and stores a fresh entry. *)
Lemma load_forced (w : World) :
  let l := fetched_at env (List.length (calls w)) in
  load_areas_with_devices env true w
  = (grouping_of l,
     {| bot := refreshed l (clock env (ticks w)) w;
        calls := calls w ++ [GetStates]; ticks := S (ticks w) |}).
Proof.
  cbn zeta. unfold load_areas_with_devices. run. cbn [negb andb].
  run. rewrite grouping_forced. reflexivity.
Qed.

(** A read whose validity test fails, with no raw list stored. *)
Lemma load_miss (w : World) :
  cache_wf (bot w) -> _all_devices (bot w) = None ->
  let l := fetched_at env (List.length (calls w)) in
  load_areas_with_devices env false w
  = (grouping_of l,
     {| bot := refreshed l (clock env (ticks w)) w;
        calls := calls w ++ [GetStates]; ticks := S (ticks w) |}).
Proof.
  intros Hwf Hnone. cbn zeta. unfold load_areas_with_devices. run.
  unfold cache_wf in Hwf. run_all. rewrite Hwf, andb_false_r.
  run. rewrite grouping_miss by exact Hnone. reflexivity.
Qed.

(** A read whose validity test fails, with a raw list stored: the list is
    grouped again and no request is sent. *)
Lemma load_regroup (l : list StateObj) (w : World) :
  cache_wf (bot w) -> _all_devices (bot w) = Some l ->
  load_areas_with_devices env false w
  = (grouping_of l,
     {| bot := refreshed l (clock env (ticks w)) w;
        calls := calls w; ticks := S (ticks w) |}).
Proof.
  intros Hwf Hsome. unfold load_areas_with_devices. run.
  unfold cache_wf in Hwf. run_all. rewrite Hwf, andb_false_r.
  run. rewrite grouping_hit with (l := l) by exact Hsome. cbn [fst snd].
  unfold refreshed. destruct w as [b c t]; cbn in *. destruct b; cbn in *.
  subst. reflexivity.
Qed.

(** *** The keys of a grouping *)

Lemma dict_mem_filter {V} (P : str * V -> bool) (k : str) (d : dict V) :
  dict_mem k d = false -> dict_mem k (List.filter P d) = false.
Proof.
  unfold dict_mem. induction d as [|[k' v] d IH]; cbn; [reflexivity|].
  destruct (str_eqb k k') eqn:E; [discriminate|]. intros H.
  destruct (P (k', v)); cbn; rewrite ?E; auto.
Qed.

Lemma dict_mem_alter {V} (f : V -> V) (k k0 : str) (d : dict V) :
  dict_mem k (dict_alter f k0 d) = dict_mem k d.
Proof.
  unfold dict_mem. induction d as [|[k' v] d IH]; cbn; [reflexivity|].
  destruct (str_eqb k0 k'); cbn; destruct (str_eqb k k'); auto.
Qed.

Lemma dict_mem_group_devices (k : str) (l : list StateObj) :
  dict_mem k (group_devices l) = dict_mem k empty_houses.
Proof.
  unfold group_devices. generalize empty_houses as houses.
  induction l as [|d l IH]; intros houses; cbn [List.fold_left]; [reflexivity|].
  now rewrite IH, dict_mem_alter.
Qed.

Lemma grouping_wf (l : list StateObj) : dict_mem ALL (grouping_of l) = false.
Proof.
  unfold grouping_of. apply dict_mem_filter.
  rewrite dict_mem_group_devices. vm_compute. reflexivity.
Qed.

Lemma grouping_of_nil : grouping_of [] = [].
Proof. vm_compute. reflexivity. Qed.

Lemma refreshed_wf (l : list StateObj) (now : Q) (w : World) :
  cache_wf (refreshed l now w).
Proof. unfold cache_wf, refreshed. cbn. apply grouping_wf. Qed.

Lemma fetches_snoc (l : list Request) :
  fetches (l ++ [GetStates]) = S (fetches l).
Proof.
  unfold fetches. rewrite List.filter_app, List.length_app. cbn. lia.
Qed.

(** *** C7: a read after an invalidation *)

(** C7. [_clear_cache] discards the grouped entry, the raw device list, the
    timestamp and the memoised list of group names; the next read with
    force=false then sends one full-state request to the hub, whatever the
    clock shows, and stores and returns the grouping of what the hub
    answered. *)
Theorem read_after_invalidate_fetches (w : World) :
  let w1 := (_clear_cache w).2 in
  let out := load_areas_with_devices env false w1 in
  let l := fetched_at env (List.length (calls w)) in
  cache_cleared (bot w1)
  /\ calls w1 = calls w
  /\ calls out.2 = calls w ++ [GetStates]
  /\ fetches (calls out.2) = S (fetches (calls w))
  /\ out.1 = grouping_of l
  /\ devices_cache (bot out.2) = grouping_of l
  /\ _all_devices (bot out.2) = Some l
  /\ dict_get ALL (_cache_timestamp (bot out.2)) = Some (clock env (ticks w)).
Proof.
  cbn zeta. rewrite clear_cache_spec. cbn [snd].
  rewrite load_miss by reflexivity. cbn [fst snd calls bot ticks].
  rewrite fetches_snoc.
  repeat split.
Qed.

(** *** C9: a failed fetch is remembered *)

Lemma get_area_devices_unforced (a : str) (w : World) :
  get_area_devices env a false w
  = (dict_get_default a (load_areas_with_devices env false w).1 [],
     (load_areas_with_devices env false w).2).
Proof. unfold get_area_devices, when. run. reflexivity. Qed.

Lemma get_area_devices_forced (a : str) (w : World) :
  get_area_devices env a true w
  = (dict_get_default a (load_areas_with_devices env true (_clear_cache w).2).1 [],
     (load_areas_with_devices env true (_clear_cache w).2).2).
Proof. unfold get_area_devices, when. run. reflexivity. Qed.

(** An operation that has to fetch: it is forced, or no raw list is
    stored. *)
Lemma run_op_fetch (op : cache_op) (w : World) :
  cache_wf (bot w) ->
  forced op = true \/ _all_devices (bot w) = None ->
  let l := fetched_at env (List.length (calls w)) in
  let out := run_op env op w in
  calls out.2 = calls w ++ [GetStates]
  /\ _all_devices (bot out.2) = Some l
  /\ cache_wf (bot out.2)
  /\ (l = [] -> out.1 = true).
Proof.
  intros Hwf Hfetch. cbn zeta.
  destruct op as [|f|f|a f]; cbn [run_op forced] in *; rewrite run_bind, run_ret;
    cbn [fst snd].
  - destruct Hfetch as [?|Hnone]; [discriminate|].
    rewrite get_all_devices_miss by assumption. cbn [fst snd calls bot].
    repeat split; [exact Hwf|]. now intros ->.
  - assert (manual_area_grouping env f w
            = manual_area_grouping env true w) as ->.
    { destruct f; [reflexivity|]. destruct Hfetch as [?|Hnone]; [discriminate|].
      now rewrite grouping_miss, grouping_forced. }
    rewrite grouping_forced. cbn [fst snd calls bot].
    repeat split; [exact Hwf|]. intros ->. now rewrite grouping_of_nil.
  - assert (load_areas_with_devices env f w
            = load_areas_with_devices env true w) as ->.
    { destruct f; [reflexivity|]. destruct Hfetch as [?|Hnone]; [discriminate|].
      now rewrite load_miss, load_forced. }
    rewrite load_forced. cbn [fst snd calls bot].
    repeat split; [apply refreshed_wf|]. intros ->. now rewrite grouping_of_nil.
  - destruct f.
    + rewrite get_area_devices_forced, clear_cache_spec. cbn [snd].
      rewrite load_forced. cbn [fst snd calls bot].
      repeat split; [apply refreshed_wf|]. intros ->. now rewrite grouping_of_nil.
    + destruct Hfetch as [?|Hnone]; [discriminate|].
      rewrite get_area_devices_unforced, load_miss by assumption.
      cbn [fst snd calls bot].
      repeat split; [apply refreshed_wf|]. intros ->. now rewrite grouping_of_nil.
Qed.

(** An unforced operation on a stored empty raw list: it returns something
    empty, sends nothing, and leaves the empty raw list in place. *)
Lemma run_op_empty (op : cache_op) (w : World) :
  cache_wf (bot w) -> _all_devices (bot w) = Some [] -> forced op = false ->
  let out := run_op env op w in
  out.1 = true /\ calls out.2 = calls w
  /\ _all_devices (bot out.2) = Some [] /\ cache_wf (bot out.2).
Proof.
  intros Hwf Hraw Hop. cbn zeta.
  destruct op as [|f|f|a f]; cbn [run_op forced] in *; subst; rewrite run_bind, run_ret;
    cbn [fst snd].
  - rewrite get_all_devices_hit with (l := []) by assumption. cbn. auto.
  - rewrite grouping_hit with (l := []) by assumption. rewrite grouping_of_nil. cbn. auto.
  - rewrite load_regroup with (l := []) by assumption. rewrite grouping_of_nil.
    cbn [fst snd calls bot]. repeat split; apply refreshed_wf.
  - rewrite get_area_devices_unforced, load_regroup with (l := []) by assumption.
    rewrite grouping_of_nil. cbn [fst snd calls bot]. repeat split; apply refreshed_wf.
Qed.

Lemma run_ops_empty (ops : list cache_op) (w : World) :
  cache_wf (bot w) -> _all_devices (bot w) = Some [] ->
  List.Forall (fun op => forced op = false) ops ->
  let out := run_ops env ops w in
  out.1 = true /\ calls out.2 = calls w
  /\ _all_devices (bot out.2) = Some [] /\ cache_wf (bot out.2).
Proof.
  intros Hwf Hraw Hops. revert w Hwf Hraw.
  induction Hops as [|op ops Hop Hops IH]; intros w Hwf Hraw; cbn zeta.
  - cbn. auto.
  - cbn [run_ops]. rewrite !run_bind, run_ret. cbn [fst snd].
    destruct (run_op_empty op w Hwf Hraw Hop) as (H1 & H2 & H3 & H4). cbn zeta in *.
    destruct (IH _ H4 H3) as (I1 & I2 & I3 & I4). cbn zeta in *.
    rewrite H1, I1, I2, H2. auto.
Qed.

(** C9. Let an operation have to fetch (it is forced or no raw list is
    stored) while the hub does not answer.  Then the operation returns
    something empty and the empty list is stored as the raw device list;
    every following unforced grouping, cache read or per-area read, at any
    clock reading, returns something empty and sends no request; this lasts
    until the raw list is cleared: after [_clear_cache], or with a forced
    operation, the next operation sends a full-state request again. *)
Theorem failed_fetch_is_cached (op0 : cache_op) (ops : list cache_op) (w : World) :
  cache_wf (bot w) ->
  forced op0 = true \/ _all_devices (bot w) = None ->
  hub_states env (List.length (calls w)) = None ->
  List.Forall (fun op => forced op = false) ops ->
  let first := run_op env op0 w in
  let later := run_ops env ops first.2 in
  first.1 = true
  /\ calls first.2 = calls w ++ [GetStates]
  /\ _all_devices (bot first.2) = Some []
  /\ later.1 = true
  /\ calls later.2 = calls first.2
  /\ _all_devices (bot later.2) = Some []
  /\ (forall op, forced op = true ->
        calls (run_op env op later.2).2 = calls later.2 ++ [GetStates])
  /\ (forall op,
        calls (run_op env op (_clear_cache later.2).2).2 = calls later.2 ++ [GetStates]).
Proof.
  intros Hwf Hfetch Hdown Hops. cbn zeta.
  destruct (run_op_fetch op0 w Hwf Hfetch) as (F1 & F2 & F3 & F4). cbn zeta in *.
  assert (Hnil : fetched_at env (List.length (calls w)) = [])
    by (unfold fetched_at; now rewrite Hdown).
  rewrite Hnil in F2. specialize (F4 Hnil).
  destruct (run_ops_empty ops _ F3 F2 Hops) as (L1 & L2 & L3 & L4). cbn zeta in *.
  repeat split; try assumption.
  - intros op Hop. now apply run_op_fetch; [|left].
  - intros op. rewrite clear_cache_spec. cbn [snd].
    change (calls (run_ops env ops (run_op env op0 w).2).2)
      with (calls {| bot := set_areas_list_memo None
                     (set_cache_timestamp []
                        (set_all_devices None
                           (set_devices_cache []
                              (bot (run_ops env ops (run_op env op0 w).2).2))));
                     calls := calls (run_ops env ops (run_op env op0 w).2).2;
                     ticks := ticks (run_ops env ops (run_op env op0 w).2).2 |}) at 2.
    apply run_op_fetch; [reflexivity|now right].
Qed.
End Cache.

(** C3, evaluated on a lamp that is switched off after the first read, with
    a clock that advances by 100 seconds per reading.  The first read with
    force=false fetches and stores an entry stamped 0.  The second read
    with force=false happens at time 100, when the entry's age is far
    beyond the TTL of 2 seconds: it sends no request and returns the old
    payload, in which the lamp is still on, although the hub would now
    answer that it is off. *)
Theorem stale_read_does_not_refetch :
  let first := load_areas_with_devices switched_off_env false fresh in
  let second := load_areas_with_devices switched_off_env false first.2 in
  calls first.2 = [GetStates]
  /\ dict_get ALL (_cache_timestamp (bot first.2)) = Some 0%Q
  /\ clock switched_off_env (ticks first.2) = 100%Q
  /\ Qle_bool CACHE_TTL (100 - 0) = true
  /\ calls second.2 = calls first.2
  /\ second.1 = grouping_of [lamp_obj ON]
  /\ hub_states switched_off_env (List.length (calls first.2)) = Some [lamp_obj OFF]
  /\ second.1 <> grouping_of [lamp_obj OFF].
Proof. vm_compute. repeat split. intros H. discriminate H. Qed.

Lemma failed_fetch_is_cached_witness :
  let ops := [OpGrouping false; OpLoad false; OpAreaDevices (u "Домик 1") false;
              OpAllDevices] in
  cache_wf (bot fresh)
  /\ _all_devices (bot fresh) = None
  /\ hub_states unreachable_env (List.length (calls fresh)) = None
  /\ List.Forall (fun op => forced op = false) ops
  /\ (let first := run_op unreachable_env (OpLoad false) fresh in
      let later := run_ops unreachable_env ops first.2 in
      first.1 = true /\ calls first.2 = calls fresh ++ [GetStates]
      /\ _all_devices (bot first.2) = Some []
      /\ later.1 = true /\ calls later.2 = calls first.2).
Proof.
  cbn zeta.
  assert (Hops : List.Forall (fun op => forced op = false)
                   [OpGrouping false; OpLoad false;
                    OpAreaDevices (u "Домик 1") false; OpAllDevices])
    by (repeat constructor).
  refine (conj eq_refl (conj eq_refl (conj eq_refl (conj Hops _)))).
  pose proof (failed_fetch_is_cached unreachable_env (OpLoad false) _ fresh
                eq_refl (or_intror eq_refl) eq_refl Hops) as H.
  cbn zeta in H.
  destruct H as (H1 & H2 & H3 & H4 & H5 & _).
  exact (conj H1 (conj H2 (conj H3 (conj H4 H5)))).
Defined.

(** ** C6: assignment of devices to groups *)

Lemma house_patterns_table :
  HOUSE_PATTERNS = List.map (fun k => (house_name k, patterns_of k)) (List.seq 1 10).
Proof. vm_compute. reflexivity. Qed.

Lemma first_matching_house_map (f : nat -> str) (g : nat -> list regex)
      (ks : list nat) (name : str) :
  first_matching_house (List.map (fun k => (f k, g k)) ks) name
  = option_map f (List.find (fun k => any_pattern_matches (g k) name) ks).
Proof.
  induction ks as [|k ks IH]; cbn; [reflexivity|].
  destruct (any_pattern_matches (g k) name); [reflexivity|exact IH].
Qed.

Lemma find_seq_least (P : nat -> bool) (a n : nat) :
  match List.find P (List.seq a n) with
  | Some k => a <= k < a + n /\ P k = true /\ forall j, a <= j < k -> P j = false
  | None => forall j, a <= j < a + n -> P j = false
  end.
Proof.
  revert a; induction n as [|n IH]; intros a; cbn.
  - intros j Hj. lia.
  - destruct (P a) eqn:Ha.
    + repeat split; try lia. exact Ha.
    + specialize (IH (S a)). destruct (List.find P (List.seq (S a) n)) as [k|].
      * destruct IH as (Hk & HP & Hj). repeat split; try lia; [exact HP|].
        intros j Hjk. destruct (decide (j = a)) as [->|]; [exact Ha|].
        apply Hj. lia.
      * intros j Hj. destruct (decide (j = a)) as [->|]; [exact Ha|].
        apply IH. lia.
Qed.

Lemma assign_spec (name : str) :
  _assign_device_to_house name
  = match List.find (fun k => house_matches k name) (List.seq 1 10) with
    | Some k => house_name k
    | None => GENERAL
    end.
Proof.
  unfold _assign_device_to_house. rewrite house_patterns_table.
  rewrite first_matching_house_map. unfold house_matches.
  destruct (List.find _ _); reflexivity.
Qed.

Lemma assign_is_house_key (name : str) :
  dict_mem (_assign_device_to_house name) empty_houses = true.
Proof.
  rewrite assign_spec.
  pose proof (find_seq_least (fun k => house_matches k name) 1 10) as H.
  destruct (List.find _ _) as [k|]; [|vm_compute; reflexivity].
  destruct H as (Hk & _).
  assert (Hin : In k (List.seq 1 10)) by (apply List.in_seq; lia).
  revert Hin. generalize k. apply List.Forall_forall.
  repeat constructor.
Qed.

Ltac str_facts :=
  repeat match goal with
         | H : str_eqb _ _ = true |- _ => apply str_eqb_eq in H
         | H : str_eqb _ _ = false |- _ => apply str_eqb_neq in H
         end.

Lemma dict_get_alter {V} (f : V -> V) (k g : str) (d : dict V) :
  dict_get g (dict_alter f k d)
  = if str_eqb k g then option_map f (dict_get g d) else dict_get g d.
Proof.
  induction d as [|[k' v] d IH]; cbn [dict_alter dict_get].
  - destruct (str_eqb k g); reflexivity.
  - destruct (str_eqb k k') eqn:Ek; cbn [dict_get]; [|rewrite IH];
      destruct (str_eqb g k') eqn:Eg; destruct (str_eqb k g) eqn:Ekg;
      cbn [option_map]; try reflexivity; str_facts; subst; congruence.
Qed.

(** The grouping loop appends each device to the list of its own group and
    to no other. *)
Lemma group_fold_get (g : str) (l : list StateObj) (houses : dict (list StateObj)) :
  dict_get g
    (List.fold_left
       (fun houses device =>
          dict_alter (fun l => l ++ [device])
                     (_assign_device_to_house (friendly_name_or_empty device)) houses)
       l houses)
  = option_map
      (fun old => old ++ List.filter
         (fun d => str_eqb (_assign_device_to_house (friendly_name_or_empty d)) g) l)
      (dict_get g houses).
Proof.
  revert houses; induction l as [|d l IH]; intros houses; cbn [List.fold_left List.filter].
  - destruct (dict_get g houses); cbn; now rewrite ?List.app_nil_r.
  - rewrite IH, dict_get_alter.
    destruct (str_eqb _ g); destruct (dict_get g houses); cbn; try reflexivity.
    now rewrite <- List.app_assoc.
Qed.

Lemma dict_get_not_mem {V} (k : str) (d : dict V) :
  dict_mem k d = false -> dict_get k d = None.
Proof. unfold dict_mem. now destruct (dict_get k d). Qed.

Lemma dict_keys_alter {V} (f : V -> V) (k : str) (d : dict V) :
  dict_keys (dict_alter f k d) = dict_keys d.
Proof.
  induction d as [|[k' v] d IH]; cbn; [reflexivity|].
  destruct (str_eqb k k'); cbn; [reflexivity|]. f_equal. exact IH.
Qed.

Lemma dict_mem_keys {V} (k : str) (d : dict V) :
  dict_mem k d = true <-> In k (dict_keys d).
Proof.
  unfold dict_mem. induction d as [|[k' v] d IH]; cbn; [easy|].
  destruct (str_eqb k k') eqn:E.
  - apply str_eqb_eq in E. subst. tauto.
  - apply str_eqb_neq in E. split; [intros H; right; now apply IH|].
    intros [->|H]; [easy|now apply IH].
Qed.

(** Dropping the empty groups does not change what is found under a name,
    the names being distinct. *)
Lemma dict_get_nonempty_filter {V} (g : str) (d : dict (list V)) :
  List.NoDup (dict_keys d) ->
  dict_get_default g (List.filter (fun kv => is_nonempty (snd kv)) d) []
  = dict_get_default g d [].
Proof.
  unfold dict_get_default.
  induction d as [|[k v] d IH]; cbn; [reflexivity|]. intros Hnd.
  apply List.NoDup_cons_iff in Hnd as [Hk Hnd]. specialize (IH Hnd).
  destruct v as [|x v]; cbn.
  - destruct (str_eqb g k) eqn:E; [|exact IH].
    apply str_eqb_eq in E. subst k.
    assert (Hm : dict_mem g d = false).
    { destruct (dict_mem g d) eqn:Hm; [|reflexivity].
      apply dict_mem_keys in Hm. contradiction. }
    now rewrite (dict_get_not_mem _ _ (dict_mem_filter _ _ _ Hm)).
  - destruct (str_eqb g k); [reflexivity|exact IH].
Qed.

Lemma group_devices_keys (l : list StateObj) :
  dict_keys (group_devices l) = dict_keys empty_houses.
Proof.
  unfold group_devices. generalize empty_houses as houses.
  induction l as [|d l IH]; intros houses; cbn [List.fold_left]; [reflexivity|].
  now rewrite IH, dict_keys_alter.
Qed.

Lemma str_in_In (x : str) (l : list str) : str_in x l = true <-> In x l.
Proof.
  unfold str_in. rewrite List.existsb_exists. split.
  - intros (y & Hy & E). apply str_eqb_eq in E. now subst.
  - intros H. exists x. split; [exact H|apply str_eqb_refl].
Qed.

Lemma distinct_NoDup (l : list str) : distinct l = true -> List.NoDup l.
Proof.
  induction l as [|x r IH]; cbn [distinct]; [constructor|].
  intros [Hx Hr]%andb_prop. constructor; [|now apply IH].
  intros Hin. apply str_in_In in Hin. rewrite Hin in Hx. discriminate Hx.
Qed.

Lemma empty_houses_keys_nodup : List.NoDup (dict_keys empty_houses).
Proof. apply distinct_NoDup. vm_compute. reflexivity. Qed.

Lemma empty_houses_get (g : str) :
  dict_get g empty_houses = if dict_mem g empty_houses then Some [] else None.
Proof.
  unfold dict_mem.
  let e := eval vm_compute in empty_houses in change empty_houses with e.
  cbn [dict_get]. repeat (destruct (str_eqb g _); [reflexivity|]). reflexivity.
Qed.

Lemma filter_filter_andb {A} (P Q : A -> bool) (l : list A) :
  List.filter P (List.filter Q l) = List.filter (fun x => Q x && P x) l.
Proof.
  induction l as [|x l IH]; [reflexivity|]. cbn [List.filter].
  destruct (Q x); cbn [andb List.filter]; [|exact IH].
  destruct (P x); now rewrite IH.
Qed.

Lemma filter_none {A} (P : A -> bool) (l : list A) :
  (forall x, P x = false) -> List.filter P l = [].
Proof.
  intros H. induction l as [|x l IH]; [reflexivity|]. cbn [List.filter].
  now rewrite H.
Qed.

(** What is stored under a group name in the grouping of a device list:
    the controllable devices assigned to that name, in the order of the
    list. *)
Lemma grouping_get (g : str) (l : list StateObj) :
  dict_get_default g (grouping_of l) [] = List.filter (assigned_to g) l.
Proof.
  unfold grouping_of.
  rewrite dict_get_nonempty_filter
    by (rewrite group_devices_keys; apply empty_houses_keys_nodup).
  unfold dict_get_default, group_devices. rewrite group_fold_get, empty_houses_get.
  change (assigned_to g)
    with (fun d => _is_controllable_device (entity_id d)
                   && str_eqb (_assign_device_to_house (friendly_name_or_empty d)) g).
  rewrite <- filter_filter_andb.
  destruct (dict_mem g empty_houses) eqn:Hm; cbn [option_map]; [reflexivity|].
  symmetry. apply filter_none. intros d.
  destruct (str_eqb _ g) eqn:E; [|reflexivity].
  apply str_eqb_eq in E. rewrite <- E, assign_is_house_key in Hm. discriminate Hm.
Qed.

(** C6. The name a display name is assigned to is that of the first group,
    in the order 1 to 10, one of whose patterns matches the name with case
    ignored; a name no pattern of any group matches is assigned to the
    general bucket; names that differ in case only are assigned alike; and
    in the grouping of a device list every group holds exactly the
    controllable devices assigned to it, so that each controllable device
    appears under its own group and under no other. *)
Theorem first_matching_group_wins (name : str) :
  (forall k, 1 <= k <= 10 ->
     house_matches k name = true ->
     (forall j, 1 <= j < k -> house_matches j name = false) ->
     _assign_device_to_house name = house_name k)
  /\ ((forall k, 1 <= k <= 10 -> house_matches k name = false) ->
      _assign_device_to_house name = GENERAL)
  /\ ((exists k, 1 <= k <= 10 /\ _assign_device_to_house name = house_name k
                 /\ house_matches k name = true)
      \/ _assign_device_to_house name = GENERAL)
  /\ (forall name', lower name' = lower name ->
        _assign_device_to_house name' = _assign_device_to_house name)
  /\ (forall (devices : list StateObj) (g : str),
        dict_get_default g (grouping_of devices) [] = List.filter (assigned_to g) devices)
  /\ (forall (devices : list StateObj) (g : str) (d : StateObj),
        In d (dict_get_default g (grouping_of devices) []) <->
        In d devices /\ _is_controllable_device (entity_id d) = true
        /\ g = _assign_device_to_house (friendly_name_or_empty d)).
Proof.
  pose proof (find_seq_least (fun k => house_matches k name) 1 10) as Hfind.
  pose proof (assign_spec name) as Hspec.
  split; [|split; [|split; [|split; [|split]]]].
  - intros k Hk Hm Hless. rewrite Hspec.
    destruct (List.find _ _) as [k'|].
    + destruct Hfind as (Hk' & Hm' & Hless').
      destruct (Nat.lt_trichotomy k k') as [Hlt|[->|Hgt]]; [|reflexivity|].
      * rewrite Hless' in Hm by lia. discriminate Hm.
      * rewrite Hless in Hm' by lia. discriminate Hm'.
    + rewrite Hfind in Hm by lia. discriminate Hm.
  - intros Hnone. rewrite Hspec.
    destruct (List.find _ _) as [k'|]; [|reflexivity].
    destruct Hfind as (Hk' & Hm' & _). rewrite Hnone in Hm' by lia. discriminate Hm'.
  - rewrite Hspec. destruct (List.find _ _) as [k'|]; [|now right].
    destruct Hfind as (Hk' & Hm' & _). left. exists k'. repeat split; try lia. exact Hm'.
  - intros name' Hlow. unfold _assign_device_to_house. now rewrite Hlow.
  - intros devices g. apply grouping_get.
  - intros devices g d. rewrite grouping_get, List.filter_In. unfold assigned_to.
    rewrite andb_true_iff, str_eqb_eq. intuition congruence.
Qed.

Lemma first_matching_group_wins_witness :
  let name := u "Домик 3 Lamp" in
  1 <= 3 <= 10
  /\ house_matches 3 name = true
  /\ (forall j, 1 <= j < 3 -> house_matches j name = false)
  /\ _assign_device_to_house name = house_name 3.
Proof.
  cbn zeta.
  assert (Hless : forall j, 1 <= j < 3 -> house_matches j (u "Домик 3 Lamp") = false).
  { intros j Hj. destruct j as [|[|[|j]]]; [lia|reflexivity|reflexivity|lia]. }
  refine (conj (conj (le_S _ _ (le_S _ _ (le_n 1))) _) (conj eq_refl (conj Hless _))).
  - lia.
  - exact (proj1 (first_matching_group_wins (u "Домик 3 Lamp")) 3
             ltac:(lia) eq_refl Hless).
Defined.

(** ** C1: commands inside a group *)

(** C1, evaluated on chat 7 after it has chosen the group "Домик 1".  The
    session is in that group.  Handling "Статус" puts the session back to
    the root and answers with the request to choose a group, under the root
    keyboard: no status report is made and the hub is not asked.  Handling
    "Данные" does the same: no sensor summary is sent. *)
Theorem status_in_group_leaves_group :
  let w := in_group_world in
  let status := (handle_message lamp_on_env 7 (u "Статус") w).2 in
  let data := (handle_message lamp_on_env 7 (u "Данные") w).2 in
  user_states (bot w) !! 7%Z = Some (house_session (u "Домик 1"))
  /\ user_states (bot status) !! 7%Z = Some main_session
  /\ calls status = calls w ++ [SendMessage 7 CHOOSE root_menu]
  /\ user_states (bot data) !! 7%Z = Some main_session
  /\ calls data = calls w ++ [SendMessage 7 CHOOSE root_menu].
Proof. vm_compute. repeat split. Qed.

(** * Further properties of the code *)

(** ** Short names ([shorten_name]) *)

Lemma dots_length : List.length DOTS = 3.
Proof. vm_compute. reflexivity. Qed.

Lemma placeholder_length : List.length PLACEHOLDER = 10.
Proof. vm_compute. reflexivity. Qed.


(** *** Removal, white space and trimming *)

Lemma delete_go_absent (eqc : char -> char -> bool) (p s : str) :
  occurs_with eqc p s = false -> delete_go eqc p 0 s = s.
Proof.
  induction s as [|c s IH]; [reflexivity|]. cbn [occurs_with delete_go].
  intros [Hp Hs]%orb_false_elim. cbn [is_prefix] in *. rewrite Hp. f_equal. now apply IH.
Qed.

Lemma delete_all_absent (eqc : char -> char -> bool) (p s : str) :
  negb (is_nonempty p) || negb (occurs_with eqc p s) = true -> delete_all eqc p s = s.
Proof.
  destruct p as [|c p]; [reflexivity|]. cbn [is_nonempty negb orb delete_all].
  intros H. apply delete_go_absent. now destruct (occurs_with eqc (c :: p) s).
Qed.

Lemma fold_replace_absent (words : list str) (s : str) :
  words_absent words s = true ->
  List.fold_left (fun acc word => replace_with_empty word acc) words s = s.
Proof.
  unfold words_absent. induction words as [|w ws IH]; [reflexivity|].
  cbn [List.forallb List.fold_left]. intros [Hw Hws]%andb_prop.
  unfold replace_with_empty at 2. rewrite delete_all_absent.
  - now apply IH.
  - unfold contains in Hw. rewrite Hw. apply orb_true_r.
Qed.

Lemma collapse_single_spaced (b : bool) (s : str) :
  single_spaced b s = true -> collapse_ws b s = s.
Proof.
  revert b; induction s as [|c s IH]; intros b; [reflexivity|].
  cbn [single_spaced collapse_ws]. destruct (is_space c).
  - intros [[Hb Hc]%andb_prop Hs]%andb_prop.
    destruct b; [discriminate|]. apply N.eqb_eq in Hc. subst c. f_equal. now apply IH.
  - intros Hs. f_equal. now apply IH.
Qed.

Lemma collapse_is_single_spaced (b : bool) (s : str) :
  single_spaced b (collapse_ws b s) = true.
Proof.
  revert b; induction s as [|c s IH]; intros b; [reflexivity|].
  cbn [collapse_ws]. destruct (is_space c) eqn:Hc.
  - destruct b; [apply IH|]. cbn [single_spaced].
    change (is_space SP) with true. cbn [negb andb]. rewrite N.eqb_refl. apply IH.
  - cbn [single_spaced]. rewrite Hc. apply IH.
Qed.

Lemma single_spaced_weaken (b : bool) (s : str) :
  single_spaced b s = true -> single_spaced false s = true.
Proof.
  destruct s as [|c s]; [reflexivity|]. cbn [single_spaced].
  destruct (is_space c); [|easy]. destruct b; [discriminate|easy].
Qed.

Lemma single_spaced_app_l (b : bool) (p t : str) :
  single_spaced b (p ++ t) = true -> single_spaced b p = true.
Proof.
  revert b; induction p as [|c p IH]; intros b; [reflexivity|].
  cbn [List.app single_spaced]. destruct (is_space c).
  - intros [H1 H2]%andb_prop. rewrite H1. now apply IH.
  - apply IH.
Qed.

Lemma single_spaced_app (b : bool) (p t : str) :
  single_spaced b p = true -> (forall b', single_spaced b' t = true) ->
  single_spaced b (p ++ t) = true.
Proof.
  intros Hp Ht. revert b Hp; induction p as [|c p IH]; intros b Hp; [apply Ht|].
  cbn [List.app single_spaced] in *. destruct (is_space c).
  - apply andb_prop in Hp as [H1 H2]. rewrite H1. now apply IH.
  - now apply IH.
Qed.

Lemma lstrip_suffix (s : str) : exists t, s = t ++ lstrip s.
Proof.
  induction s as [|c s [t IH]]; [now exists []|]. cbn [lstrip].
  destruct (is_space c); [|now exists []].
  exists (c :: t). cbn. now rewrite <- IH.
Qed.

Lemma rstrip_prefix (s : str) : exists t, s = rstrip s ++ t.
Proof.
  unfold rstrip. destruct (lstrip_suffix (List.rev s)) as [t Ht].
  exists (List.rev t). rewrite <- List.rev_app_distr, <- Ht. now rewrite List.rev_involutive.
Qed.

Lemma lstrip_single_spaced (b : bool) (s : str) :
  single_spaced b s = true -> single_spaced false (lstrip s) = true.
Proof.
  revert b; induction s as [|c s IH]; intros b; [reflexivity|].
  cbn [lstrip]. destruct (is_space c) eqn:Hc.
  - cbn [single_spaced]. rewrite Hc. intros [_ Hs]%andb_prop. now apply (IH true).
  - apply single_spaced_weaken.
Qed.

Lemma strip_single_spaced (b : bool) (s : str) :
  single_spaced b s = true -> single_spaced false (strip s) = true.
Proof.
  intros H. unfold strip. apply lstrip_single_spaced in H.
  destruct (rstrip_prefix (lstrip s)) as [t Ht]. rewrite Ht in H.
  now apply single_spaced_app_l in H.
Qed.

Lemma lstrip_head (s : str) : head_not_space (lstrip s).
Proof.
  induction s as [|c s IH]; [exact I|]. cbn [lstrip].
  destruct (is_space c) eqn:Hc; [exact IH|exact Hc].
Qed.

Lemma lstrip_id (s : str) : head_not_space s -> lstrip s = s.
Proof. destruct s as [|c s]; [reflexivity|]. cbn. now intros ->. Qed.

Lemma trimmed_spec (s : str) :
  trimmed s = true <-> head_not_space s /\ head_not_space (List.rev s).
Proof.
  unfold trimmed, head_not_space. rewrite andb_true_iff.
  destruct s as [|c s]; destruct (List.rev _) as [|d r];
    rewrite ?negb_true_iff; tauto.
Qed.

Lemma head_not_space_prefix (p t : str) :
  head_not_space (p ++ t) -> head_not_space p.
Proof. destruct p; [easy|exact id]. Qed.

Lemma strip_trimmed (s : str) : trimmed (strip s) = true.
Proof.
  apply trimmed_spec. unfold strip, rstrip. split.
  - destruct (rstrip_prefix (lstrip s)) as [t Ht]. unfold rstrip in Ht.
    apply head_not_space_prefix with (t := t). rewrite <- Ht. apply lstrip_head.
  - rewrite List.rev_involutive. apply lstrip_head.
Qed.

Lemma trimmed_strip_id (s : str) : trimmed s = true -> strip s = s.
Proof.
  intros [H1 H2]%trimmed_spec. unfold strip, rstrip.
  rewrite (lstrip_id s H1), (lstrip_id _ H2). apply List.rev_involutive.
Qed.

(** The three shapes of a short name. *)
Lemma shorten_name_shape (words : list str) (name area_name : str) :
  exists clean,
    trimmed clean = true /\ single_spaced false clean = true
    /\ shorten_name_in words name area_name
       = if 12 <? List.length clean then List.firstn 12 clean ++ DOTS
         else match clean with
              | [] => PLACEHOLDER
              | _ :: _ => clean
              end.
Proof.
  eexists. split; [apply strip_trimmed|]. split; [|reflexivity].
  apply strip_single_spaced with (b := false). apply collapse_is_single_spaced.
Qed.

Lemma dots_single_spaced (b : bool) : single_spaced b DOTS = true.
Proof. destruct b; vm_compute; reflexivity. Qed.

Lemma firstn_app_exact {A} (n : nat) (l t : list A) :
  n <= List.length l -> List.firstn n (List.firstn n l ++ t) = List.firstn n l.
Proof.
  intros H. rewrite List.firstn_app, List.firstn_firstn, List.length_firstn.
  replace (Init.Nat.min n n) with n by lia.
  replace (n - Init.Nat.min n (List.length l)) with 0 by lia.
  cbn [List.firstn]. apply List.app_nil_r.
Qed.

(** A short name is tidy: single-spaced and trimmed. *)
Lemma shorten_name_tidy (words : list str) (name area_name : str) :
  let s := shorten_name_in words name area_name in
  single_spaced false s = true /\ trimmed s = true.
Proof.
  cbn zeta. destruct (shorten_name_shape words name area_name)
    as (clean & Htrim & Hsp & ->).
  destruct (Nat.ltb_spec 12 (List.length clean)) as [Hlong|Hshort].
  - split.
    + apply single_spaced_app; [|apply dots_single_spaced].
      apply single_spaced_app_l with (t := List.skipn 12 clean).
      now rewrite List.firstn_skipn.
    + apply trimmed_spec in Htrim as [Hhead _]. apply trimmed_spec. split.
      * destruct clean as [|c clean]; [cbn in Hlong; lia|exact Hhead].
      * rewrite List.rev_app_distr. vm_compute. reflexivity.
  - destruct clean as [|c clean]; [split; vm_compute; reflexivity|now split].
Qed.

(** C5, as the code has it.  Deriving a short name again from a short name
    (same group) gives the same string whenever the first result contains
    neither the group label (case ignored) nor one of the stop words: only
    then do the two removal passes leave it alone, while white space,
    length and the placeholder are already in their final form. *)
Theorem shorten_name_stable (words : list str) (name area_name : str) :
  let s := shorten_name_in words name area_name in
  label_absent area_name s = true ->
  words_absent words s = true ->
  shorten_name_in words s area_name = s.
Proof.
  cbn zeta. intros Hlabel Hwords.
  destruct (shorten_name_tidy words name area_name) as [Hsp Htrim]. cbn zeta in *.
  destruct (shorten_name_shape words name area_name) as (clean & _ & _ & Hshape).
  set (s := shorten_name_in words name area_name) in *.
  unfold shorten_name_in. unfold re_sub_escaped_ci.
  rewrite delete_all_absent by exact Hlabel.
  rewrite fold_replace_absent by exact Hwords.
  rewrite collapse_single_spaced by exact Hsp.
  rewrite trimmed_strip_id by exact Htrim.
  change (u "...") with DOTS. change (u "Устройство") with PLACEHOLDER.
  clearbody s. subst s.
  destruct (Nat.ltb_spec 12 (List.length clean)) as [Hlong|Hshort].
  - assert (Hlen : List.length (List.firstn 12 clean ++ DOTS) = 15)
      by (rewrite List.length_app, List.length_firstn, dots_length; lia).
    rewrite Hlen. cbn [Nat.ltb Nat.leb]. rewrite firstn_app_exact by lia. reflexivity.
  - destruct clean as [|c clean].
    + rewrite placeholder_length. cbn [Nat.ltb Nat.leb]. vm_compute. reflexivity.
    + destruct (Nat.ltb_spec 12 (List.length (c :: clean))); [lia|reflexivity].
Qed.

Lemma shorten_name_stable_witness :
  let s := shorten_name_in WORDS_TO_REMOVE (u "Домик 3 Lamp") (u "Домик 3") in
  label_absent (u "Домик 3") s = true
  /\ words_absent WORDS_TO_REMOVE s = true
  /\ shorten_name_in WORDS_TO_REMOVE s (u "Домик 3") = s.
Proof.
  cbn zeta.
  assert (H1 : label_absent (u "Домик 3")
                 (shorten_name_in WORDS_TO_REMOVE (u "Домик 3 Lamp") (u "Домик 3")) = true)
    by (vm_compute; reflexivity).
  assert (H2 : words_absent WORDS_TO_REMOVE
                 (shorten_name_in WORDS_TO_REMOVE (u "Домик 3 Lamp") (u "Домик 3")) = true)
    by (vm_compute; reflexivity).
  exact (conj H1 (conj H2 (shorten_name_stable WORDS_TO_REMOVE (u "Домик 3 Lamp")
                             (u "Домик 3") H1 H2))).
Defined.

(** C5 as stated fails: without that condition the derivation is not
    idempotent.  The display name "Домик свет 1" in group "Домик 1"
    shortens to "Домик 1" (the stop word goes, the blanks collapse), which
    is the group label itself, and shortening that gives the placeholder.
    No other stop word occurs in these strings, so the order in which the
    stop words are visited plays no part. *)
Theorem shorten_name_not_idempotent :
  let once := shorten_name (u "Домик свет 1") (u "Домик 1") in
  let twice := shorten_name once (u "Домик 1") in
  once = u "Домик 1" /\ twice = PLACEHOLDER /\ twice <> once.
Proof. vm_compute. repeat split. intros H. discriminate H. Qed.

(** ** What the methods may do to the world *)

Section Effects.
Variable env : Env.
Variable P : Request -> bool.

Lemma grows_by_refl (w : World) : grows_by P w w.
Proof. exists []. split; [now rewrite List.app_nil_r|reflexivity]. Qed.

Lemma grows_by_trans (w1 w2 w3 : World) :
  grows_by P w1 w2 -> grows_by P w2 w3 -> grows_by P w1 w3.
Proof.
  intros (n1 & H1 & F1) (n2 & H2 & F2). exists (n1 ++ n2). split.
  - now rewrite H2, H1, List.app_assoc.
  - now rewrite List.forallb_app, F1, F2.
Qed.

Lemma calm_refl (w : World) : calm P w w.
Proof. split; [apply grows_by_refl|reflexivity]. Qed.

Lemma calm_trans (w1 w2 w3 : World) : calm P w1 w2 -> calm P w2 w3 -> calm P w1 w3.
Proof.
  intros [G1 L1] [G2 L2]. split; [eapply grows_by_trans; eassumption|congruence].
Qed.

Lemma quiet_refl (w : World) : quiet P w w.
Proof. split; [apply calm_refl|reflexivity]. Qed.

Lemma quiet_trans (w1 w2 w3 : World) : quiet P w1 w2 -> quiet P w2 w3 -> quiet P w1 w3.
Proof.
  intros [C1 U1] [C2 U2]. split; [eapply calm_trans; eassumption|congruence].
Qed.

Lemma quiet_calm (w w' : World) : quiet P w w' -> calm P w w'.
Proof. now intros [H _]. Qed.

Lemma quiet_bind {A B} (m : M A) (k : A -> M B) (w : World) :
  quiet P w (m w).2 -> (forall a w', quiet P w' (k a w').2) ->
  quiet P w ((m ≫= k) w).2.
Proof. intros Hm Hk. rewrite run_bind. eapply quiet_trans; [exact Hm|apply Hk]. Qed.

Lemma calm_bind {A B} (m : M A) (k : A -> M B) (w : World) :
  calm P w (m w).2 -> (forall a w', calm P w' (k a w').2) ->
  calm P w ((m ≫= k) w).2.
Proof. intros Hm Hk. rewrite run_bind. eapply calm_trans; [exact Hm|apply Hk]. Qed.

Lemma quiet_ret {A} (a : A) (w : World) : quiet P w (@mret M _ A a w).2.
Proof. apply quiet_refl. Qed.

Lemma calm_ret {A} (a : A) (w : World) : calm P w (@mret M _ A a w).2.
Proof. apply calm_refl. Qed.

Lemma quiet_get_bot (w : World) : quiet P w (get_bot w).2.
Proof. apply quiet_refl. Qed.

Lemma quiet_time_time (w : World) : quiet P w (time_time env w).2.
Proof.
  repeat split. exists []. split; [cbn; now rewrite List.app_nil_r|reflexivity].
Qed.

Lemma quiet_modify_bot (f : Bot -> Bot) (w : World) :
  (forall b, last_id (f b) = last_id b /\ user_states (f b) = user_states b) ->
  quiet P w (modify_bot f w).2.
Proof.
  intros Hf. destruct (Hf (bot w)) as [H1 H2].
  repeat split; cbn; [|exact H1|exact H2].
  exists []. split; [cbn; now rewrite List.app_nil_r|reflexivity].
Qed.

Lemma quiet_send {A} (r : Request) (answer : nat -> A) (w : World) :
  P r = true -> quiet P w (send r answer w).2.
Proof.
  intros Hr. repeat split. exists [r]. split; [reflexivity|]. cbn. now rewrite Hr.
Qed.

Lemma calm_set_user_state (chat : Z) (st : str) (data : option str) (w : World) :
  calm P w (set_user_state chat st data w).2.
Proof.
  split; [|reflexivity]. exists []. split; [cbn; now rewrite List.app_nil_r|reflexivity].
Qed.
End Effects.

(** Decomposes a goal [quiet P w (m w).2] along the structure of [m]. *)
Ltac quiet_step :=
  match goal with
  | |- quiet _ _ ((_ ≫= _) _).2 => apply quiet_bind; [|intros]
  | |- quiet _ _ (mret _ _).2 => apply quiet_ret
  | |- quiet _ _ (get_bot _).2 => apply quiet_get_bot
  | |- quiet _ _ (time_time _ _).2 => apply quiet_time_time
  | |- quiet _ _ (modify_bot _ _).2 => apply quiet_modify_bot; intros; split; reflexivity
  | |- quiet _ _ (send _ _ _).2 =>
    apply quiet_send; first [assumption|reflexivity|cbn; apply Z.eqb_refl]
  | |- quiet _ _ (when ?c _ _).2 => unfold when; destruct c
  | |- quiet _ _ ((if ?c then _ else _) _).2 => destruct c
  | |- quiet _ _ ((match ?x with _ => _ end) _).2 => destruct x
  end.

Ltac quiet_auto := repeat first [quiet_step | solve [auto with quiet]].

Create HintDb quiet.

Section QuietMethods.
Variable env : Env.
Variable P : Request -> bool.
Hypothesis P_fetch : P GetStates = true.

Lemma quiet_get_all_devices (w : World) : quiet P w (get_all_devices env w).2.
Proof. unfold get_all_devices. quiet_auto. Qed.
#[local] Hint Resolve quiet_get_all_devices : quiet.

Lemma quiet_clear_cache (w : World) : quiet P w (_clear_cache w).2.
Proof. unfold _clear_cache. quiet_auto. Qed.
#[local] Hint Resolve quiet_clear_cache : quiet.

Lemma quiet_manual_area_grouping (f : bool) (w : World) :
  quiet P w (manual_area_grouping env f w).2.
Proof. unfold manual_area_grouping. quiet_auto. Qed.
#[local] Hint Resolve quiet_manual_area_grouping : quiet.

Lemma quiet_load (f : bool) (w : World) :
  quiet P w (load_areas_with_devices env f w).2.
Proof. unfold load_areas_with_devices. quiet_auto. Qed.
#[local] Hint Resolve quiet_load : quiet.

Lemma quiet_get_area_devices (a : str) (f : bool) (w : World) :
  quiet P w (get_area_devices env a f w).2.
Proof. unfold get_area_devices. quiet_auto. Qed.
#[local] Hint Resolve quiet_get_area_devices : quiet.

Lemma quiet_get_all_areas_list (w : World) : quiet P w (get_all_areas_list env w).2.
Proof. unfold get_all_areas_list. quiet_auto. Qed.
#[local] Hint Resolve quiet_get_all_areas_list : quiet.

Lemma quiet_create_house_menu (a : str) (w : World) :
  quiet P w (create_house_menu env a w).2.
Proof. unfold create_house_menu. quiet_auto. Qed.
#[local] Hint Resolve quiet_create_house_menu : quiet.

Lemma quiet_create_main_menu (w : World) : quiet P w (create_main_menu env w).2.
Proof. unfold create_main_menu. quiet_auto. Qed.
#[local] Hint Resolve quiet_create_main_menu : quiet.
End QuietMethods.

#[global] Hint Resolve quiet_get_all_devices quiet_clear_cache quiet_manual_area_grouping
  quiet_load quiet_get_area_devices quiet_get_all_areas_list quiet_create_house_menu
  quiet_create_main_menu : quiet.

(** ** Messages to the chat *)

Section Messaging.
Variable env : Env.
Variable chat : Z.

Abbreviation P := (fetch_or_message chat).

Lemma quiet_send_message (body menu_type : str) (area_name : option str) (w : World) :
  quiet P w (send_message env chat body menu_type area_name w).2.
Proof. unfold send_message. quiet_auto. Qed.
#[local] Hint Resolve quiet_send_message : quiet.

Lemma quiet_send_or_log (body menu_type : str) (area_name : option str) (w : World) :
  quiet P w (send_or_log env chat body menu_type area_name w).2.
Proof. unfold send_or_log. quiet_auto. Qed.
#[local] Hint Resolve quiet_send_or_log : quiet.

Lemma quiet_on_handle_error (w : World) : quiet P w (on_handle_error env chat w).2.
Proof. unfold on_handle_error. quiet_auto. Qed.
#[local] Hint Resolve quiet_on_handle_error : quiet.

Lemma quiet_show_all_houses_status (w : World) :
  quiet P w (show_all_houses_status env chat w).2.
Proof. unfold show_all_houses_status. quiet_auto. Qed.
#[local] Hint Resolve quiet_show_all_houses_status : quiet.

Lemma quiet_show_area_status (area_name : str) (w : World) :
  quiet P w (show_area_status env chat area_name w).2.
Proof. unfold show_area_status. quiet_auto. Qed.
End Messaging.

#[global] Hint Resolve quiet_send_message quiet_send_or_log quiet_on_handle_error
  quiet_show_all_houses_status quiet_show_area_status : quiet.

(** ** Sessions and the message handler *)

Section Sessions.
Variable env : Env.
Variable chat : Z.
Variable txt : str.

Abbreviation P := (fetch_or_message chat).

Lemma quiet_get_user_state (w : World) : quiet P w (get_user_state chat w).2.
Proof. unfold get_user_state. quiet_auto. Qed.

Lemma session_step_refl (w : World) : session_step chat txt w w.
Proof. now left. Qed.

Lemma session_step_trans (w1 w2 w3 : World) :
  session_step chat txt w1 w2 -> session_step chat txt w2 w3 ->
  session_step chat txt w1 w3.
Proof.
  intros [H1|[S1 H1]] [H2|[S2 H2]].
  - left. congruence.
  - right. split; [exact S2|congruence].
  - right. split; [exact S1|congruence].
  - right. split; [exact S1|]. rewrite H2, H1. apply insert_insert_eq.
Qed.

Lemma session_step_bind {A B} (m : M A) (k : A -> M B) (w : World) :
  session_step chat txt w (m w).2 ->
  (forall a w', session_step chat txt w' (k a w').2) ->
  session_step chat txt w ((m ≫= k) w).2.
Proof.
  intros Hm Hk. rewrite run_bind. eapply session_step_trans; [exact Hm|apply Hk].
Qed.

Lemma quiet_session_step (Q : Request -> bool) (w w' : World) :
  quiet Q w w' -> session_step chat txt w w'.
Proof. intros [_ H]. now left. Qed.

Lemma session_step_enter (w : World) :
  selects_group txt = true ->
  session_step chat txt w (set_user_state chat HOUSE (Some txt) w).2.
Proof. intros H. right. split; [exact H|reflexivity]. Qed.
End Sessions.

Ltac calm_step :=
  match goal with
  | |- calm _ _ ((_ ≫= _) _).2 => apply calm_bind; [|intros]
  | |- calm _ _ (mret _ _).2 => apply calm_ret
  | |- calm _ _ (set_user_state _ _ _ _).2 => apply calm_set_user_state
  | |- calm _ _ (when ?c _ _).2 => unfold when; destruct c
  | |- calm _ _ ((if ?c then _ else _) _).2 => destruct c
  | |- calm _ _ ((match ?x with _ => _ end) _).2 => destruct x
  | |- calm _ _ _ =>
    solve [apply quiet_calm; first [apply quiet_get_user_state | auto with quiet]]
  end.

Ltac session_step_tac :=
  match goal with
  | |- session_step _ _ _ ((_ ≫= _) _).2 => apply session_step_bind; [|intros]
  | |- session_step _ _ _ (mret _ _).2 => apply session_step_refl
  | |- session_step _ _ _ (set_user_state _ HOUSE (Some _) _).2 =>
    apply session_step_enter; assumption
  | |- session_step _ _ _ (when ?c _ _).2 => unfold when; destruct c
  | |- session_step _ _ _ ((if ?c then _ else _) _).2 => destruct c eqn:?
  | |- session_step _ _ _ ((match ?x with _ => _ end) _).2 => destruct x
  | |- session_step ?c _ _ _ =>
    solve [apply (quiet_session_step c _ (fetch_or_message c));
           first [apply quiet_get_user_state | auto with quiet]]
  end.

Section HandleMessage.
Variable env : Env.
Variable chat : Z.
Variable txt : str.

(** What follows the two unconditional statements of [handle_message]. *)
Lemma handle_message_unfold (w : World) :
  exists rest : M unit,
    handle_message env chat txt w
    = rest (set_user_state chat MAIN None (get_user_state chat w).2).2
    /\ (forall w', calm (fetch_or_message chat) w' (rest w').2)
    /\ (forall w', session_step chat txt w' (rest w').2).
Proof.
  unfold handle_message. cbv zeta.
  change (us_state {| us_state := MAIN; us_data := None |}) with MAIN.
  change (str_eqb MAIN MAIN) with true. cbv iota.
  eexists. split; [do 2 rewrite run_bind; reflexivity|].
  split; intros w'.
  - repeat calm_step.
  - unfold selects_group. repeat session_step_tac.
Qed.

Lemma handle_message_calm (w : World) :
  calm (fetch_or_message chat) w (handle_message env chat txt w).2.
Proof.
  destruct (handle_message_unfold w) as (rest & -> & Hcalm & _).
  eapply calm_trans; [|apply Hcalm].
  eapply calm_trans; [apply quiet_calm, quiet_get_user_state|apply calm_set_user_state].
Qed.

(** X3. Handling any message in any session sends nothing to the hub but
    full-state fetches, and nothing to the messaging platform but messages
    to the chat the message came from; in particular no service call
    (no device is ever switched) and no single-state or sensor query is made
    by the message handler. The update offset is not touched. *)
Theorem handle_message_sends_no_command (w : World) :
  let w' := (handle_message env chat txt w).2 in
  (exists new, calls w' = calls w ++ new
               /\ List.forallb (fetch_or_message chat) new = true)
  /\ last_id (bot w') = last_id (bot w).
Proof. exact (handle_message_calm w). Qed.

(** X4. After any message the session of the sender is the root session,
    whatever it was before, unless the text names a group (contains "Домик"
    or "Общие"), in which case it may have entered that group; a text such
    as "Статус" or "Данные" therefore always leaves the sender at the root.
    The sessions of all other chats are unchanged. *)
Theorem handle_message_session (w : World) :
  let before := user_states (bot w) in
  let after := user_states (bot (handle_message env chat txt w).2) in
  (after = <[chat := main_session]> before
   \/ (selects_group txt = true /\ after = <[chat := house_session txt]> before))
  /\ (selects_group txt = false -> after !! chat = Some main_session)
  /\ (forall c, c <> chat -> after !! c = before !! c).
Proof.
  cbn zeta. destruct (handle_message_unfold w) as (rest & -> & _ & Hsess).
  set (w1 := (set_user_state chat MAIN None (get_user_state chat w).2).2).
  assert (H1 : user_states (bot w1) = <[chat := main_session]> (user_states (bot w)))
    by reflexivity.
  assert (Hor : user_states (bot (rest w1).2) = <[chat := main_session]> (user_states (bot w))
                \/ (selects_group txt = true
                    /\ user_states (bot (rest w1).2)
                       = <[chat := house_session txt]> (user_states (bot w)))).
  { destruct (Hsess w1) as [H|[S H]].
    - left. now rewrite H.
    - right. split; [exact S|]. rewrite H, H1. apply insert_insert_eq. }
  split; [exact Hor|]. split.
  - intros Hno. destruct Hor as [->|[S _]]; [apply lookup_insert_eq|congruence].
  - intros c Hc. destruct Hor as [->|[_ ->]]; now apply lookup_insert_ne.
Qed.
End HandleMessage.

(** ** The polling loop *)

Section Loop.
Variable env : Env.

Lemma poll_failed_counts (s : LoopState) (w : World) :
  error_count s <= 3 ->
  let s' := (poll_failed s w).1 in
  error_count s' <= 3
  /\ invalidations s <= invalidations s'
  /\ 4 * (invalidations s' - invalidations s) + error_count s' <= 1 + error_count s.
Proof.
  intros H. cbn zeta. unfold poll_failed.
  destruct (Nat.ltb_spec 3 (S (error_count s))).
  - rewrite run_bind, run_ret. cbn. lia.
  - rewrite run_ret. cbn. lia.
Qed.

Lemma poll_once_counts (s : LoopState) (w : World) :
  error_count s <= 3 ->
  let s' := (poll_once env s w).1 in
  error_count s' <= 3
  /\ invalidations s <= invalidations s'
  /\ 4 * (invalidations s' - invalidations s) + error_count s' <= 1 + error_count s.
Proof.
  intros H. cbn zeta. unfold poll_once. rewrite !run_bind, run_get_bot. cbn [fst snd].
  destruct (send _ _ _).1 as [r|]; [|now apply poll_failed_counts].
  destruct (upd_ok r); [|now apply poll_failed_counts].
  rewrite run_bind, run_ret. cbn. lia.
Qed.

Lemma iterate_counts (n : nat) (s : LoopState) (w : World) :
  error_count s <= 3 ->
  let s' := (iterate env n s w).1 in
  error_count s' <= 3
  /\ invalidations s <= invalidations s'
  /\ 4 * (invalidations s' - invalidations s) + error_count s' <= n + error_count s.
Proof.
  revert s w; induction n as [|n IH]; intros s w H; cbn zeta.
  - cbn [iterate]. rewrite run_ret. cbn. lia.
  - rewrite iterate_S.
    destruct (poll_once_counts s w H) as (H1 & H2 & H3). cbn zeta in *.
    destruct (IH _ (poll_once env s w).2 H1) as (I1 & I2 & I3). cbn zeta in *. lia.
Qed.

(** X5. In the polling loop the consecutive-failure counter never exceeds
    three, and the loop invalidates the cache at most once per four
    iterations: after [n] iterations, four times the number of
    invalidations plus the counter is at most [n]. *)
Theorem polling_loop_counts (n : nat) (w : World) :
  let s := (run_telegram_bot env n w).1 in
  error_count s <= 3 /\ 4 * invalidations s + error_count s <= n.
Proof.
  cbn zeta. unfold run_telegram_bot.
  destruct (iterate_counts n {| error_count := 0; invalidations := 0 |} w)
    as (H1 & H2 & H3); [cbn; lia|]. cbn in *. lia.
Qed.

Lemma run_send {A} (r : Request) (answer : nat -> A) (w : World) :
  send r answer w
  = (answer (List.length (calls w)),
     {| bot := bot w; calls := calls w ++ [r]; ticks := ticks w |}).
Proof. reflexivity. Qed.

Lemma handle_update_last_id (update : Update) (w : World) :
  last_id (bot (handle_update env update w).2) = update_id update.
Proof.
  unfold handle_update. rewrite run_bind, run_modify_bot. cbn [fst snd].
  set (w1 := {| bot := _ |}).
  assert (H1 : last_id (bot w1) = update_id update) by reflexivity.
  destruct (upd_message update) as [msg|]; [|exact H1].
  destruct (msg_text msg) as [t|]; [|exact H1].
  rewrite <- H1. apply handle_message_calm.
Qed.

Lemma for_each_last_id (us : list Update) (w : World) :
  last_id (bot (for_each us (handle_update env) w).2)
  = last_update_id (last_id (bot w)) us.
Proof.
  unfold last_update_id. revert w; induction us as [|up us IH]; intros w; [reflexivity|].
  cbn [for_each]. rewrite run_bind, IH, handle_update_last_id.
  cbn [List.map]. destruct us as [|up' us]; [reflexivity|].
  cbn [List.map List.last]. clear. generalize (update_id up').
  induction (List.map update_id us) as [|z l IHl]; intros y; [reflexivity|].
  cbn [List.last]. apply IHl.
Qed.

(** X6. Where a poll leaves the offset.  A poll that Telegram answers with
    ok sets [last_id] to the id of the last update it delivered, whether or
    not the updates carried a text message, and leaves it alone when it
    delivered none; a poll that is not answered at all, or is answered
    without ok, does not move [last_id] (the next poll asks from
    [last_id + 1]). *)
Theorem poll_advances_offset (s : LoopState) (w : World) :
  let w' := (poll_once env s w).2 in
  last_id (bot w')
  = match telegram_updates env (List.length (calls w)) (next_offset w) with
    | Some r =>
      if upd_ok r then last_update_id (last_id (bot w)) (upd_result r)
      else last_id (bot w)
    | None => last_id (bot w)
    end.
Proof.
  cbn zeta.
  destruct (telegram_updates env (List.length (calls w)) (next_offset w))
    as [r|] eqn:Hr; [destruct (upd_ok r) eqn:Hok|].
  - unfold poll_once. rewrite !run_bind, run_get_bot. cbn [fst snd].
    rewrite !run_send. cbn [fst snd]. fold (next_offset w). rewrite Hr, Hok.
    rewrite run_bind, run_ret. cbn [fst snd]. rewrite for_each_last_id. reflexivity.
  - rewrite poll_once_failure by (unfold poll_fails; now rewrite Hr, Hok).
    unfold poll_failed. destruct (3 <? S (error_count s)).
    + rewrite run_bind, run_ret, clear_cache_spec. reflexivity.
    + rewrite run_ret. reflexivity.
  - rewrite poll_once_failure by (unfold poll_fails; now rewrite Hr).
    unfold poll_failed. destruct (3 <? S (error_count s)).
    + rewrite run_bind, run_ret, clear_cache_spec. reflexivity.
    + rewrite run_ret. reflexivity.
Qed.
End Loop.

(** ** The HTTP interface *)

Section ApiFacts.
Variable env : Env.
Variable DEBUG : bool.
Variable SECRET_KEY : str.

(** X7. [require_auth] runs the view function exactly when the service is
    in debug mode or the Authorization header equals "Bearer <key>";
    otherwise it answers 401 (header missing or empty) or 403 (wrong token)
    and the view function is not run: the world is unchanged. *)
Theorem require_auth_gate (auth_header : option str) (f : M Api.Response) (w : World) :
  let out := Api.require_auth DEBUG SECRET_KEY auth_header f w in
  if authorized DEBUG SECRET_KEY auth_header then out = f w
  else out.2 = w
       /\ out.1 = match auth_header with
                  | None | Some [] => Api.Failure 401 (u "Требуется авторизация")
                  | Some _ => Api.Failure 403 (u "Неверный токен")
                  end.
Proof.
  cbn zeta. unfold authorized, Api.require_auth.
  destruct DEBUG; [reflexivity|]. cbn [orb].
  destruct auth_header as [[|c h]|]; [|destruct (str_eqb _ _)|]; split; reflexivity.
Qed.

(** X8. Validation and outcome of [POST /api/device/control].  When
    [request.json] raises (a request without a usable JSON body) the answer
    is 500 with the text of the exception.  A parsed body that is falsy or
    lacks [entity_id] or [action] is answered 400, and so is an action other
    than on, off and toggle.  In these three cases nothing is sent or
    changed.  For the actions on and off exactly one service call
    turn_<action> is made for the domain of the entity; if it is not
    answered the response is 500 and the cache is left as it was; if it is
    answered the cache is invalidated, the state is read once and reported
    together with the action performed. *)
Theorem control_validation (body : Api.Body Api.ControlJson) (w : World) :
  let out := Api.control_device_view env body w in
  match body with
  | Api.Raises error => out = (Api.Failure 500 error, w)
  | Api.Parsed (Some {| Api.cj_entity_id := Some e; Api.cj_action := Some action |}) =>
    if negb (str_in action [ON; OFF; Api.TOGGLE]) then
      out = (Api.Failure 400 (u "Неверное действие"), w)
    else if str_eqb action Api.TOGGLE then True
    else
      let answered := hub_service env (List.length (calls w)) (domain_of e) action e in
      if answered then
        calls out.2 = calls w ++ [TurnService (domain_of e) action e; GetState e]
        /\ cache_cleared (bot out.2)
        /\ exists st now, out.1 = Api.ControlSuccess e action st now
      else
        calls out.2 = calls w ++ [TurnService (domain_of e) action e]
        /\ bot out.2 = bot w
        /\ out.1 = Api.Failure 500 (u "Не удалось выполнить действие")
  | Api.Parsed _ => out = (Api.Failure 400 (u "Неверные данные"), w)
  end.
Proof.
  cbn zeta. unfold Api.control_device_view.
  destruct body as [error|[[[e|] [action|]]|]]; try reflexivity.
  destruct (negb (str_in action [ON; OFF; Api.TOGGLE])); [reflexivity|].
  destruct (str_eqb action Api.TOGGLE); [exact I|].
  rewrite !run_bind, run_ret. cbn [fst snd]. rewrite !control_device_spec. cbn [fst snd].
  destruct (hub_service env _ _ _ _).
  - rewrite !run_bind, clear_cache_spec. cbn [fst snd].
    rewrite get_device_state_spec, run_time_time, run_ret. cbn [fst snd calls bot].
    split; [now rewrite <- List.app_assoc|]. split; [repeat split|eauto].
  - rewrite run_ret. cbn [fst snd calls bot]. repeat split.
Qed.

(** X9. [control_device_api] makes one service call; when it is answered it
    reads the entity's state once and reports it ("unknown" if that query
    fails), otherwise it reports the failure.  Unlike the HTTP endpoint it
    never invalidates the cache: the bot is left exactly as it was. *)
Theorem control_device_api_keeps_cache (e action : str) (w : World) :
  let out := control_device_api env e action w in
  let answered := hub_service env (List.length (calls w)) (domain_of e) action e in
  bot out.2 = bot w
  /\ (if answered then
        calls out.2 = calls w ++ [TurnService (domain_of e) action e; GetState e]
        /\ out.1 = ControlOk e action
                     (match hub_state env (S (List.length (calls w))) e with
                      | Some o => state o
                      | None => u "unknown"
                      end)
                     (clock env (ticks w))
      else
        calls out.2 = calls w ++ [TurnService (domain_of e) action e]
        /\ out.1 = ControlFailed (u "Не удалось выполнить действие") e action
                     (clock env (ticks w))).
Proof.
  cbn zeta. unfold control_device_api.
  rewrite !run_bind. rewrite !control_device_spec. cbn [fst snd].
  destruct (hub_service env _ _ _ _).
  - rewrite !run_bind, get_device_state_spec, run_time_time, run_ret.
    cbn [fst snd calls bot ticks]. rewrite List.length_app, Nat.add_1_r. cbn [List.length].
    split; [reflexivity|]. split; [now rewrite <- List.app_assoc|].
    now destruct (hub_state env _ e).
  - rewrite !run_bind, run_time_time, run_ret. cbn [fst snd calls bot ticks].
    repeat split.
Qed.
End ApiFacts.

(** ** Sensors *)

Section Sensors.
Variable env : Env.

Lemma get_sensor_state_spec (e : str) (w : World) :
  get_sensor_state env e w
  = (option_map _parse_sensor_data (hub_state env (List.length (calls w)) e),
     {| bot := bot w; calls := calls w ++ [GetState e]; ticks := ticks w |}).
Proof. reflexivity. Qed.

(** The loop over the sensors of an area: one query per sensor, in order;
    only numeric readings are added, each under its sensor type. *)
Lemma collect_sensors_spec (sensors : dict str) (acc : dict SensorData) (w : World) :
  let out := collect_sensors env sensors acc w in
  out.2 = {| bot := bot w;
             calls := calls w ++ List.map (fun kv => GetState (snd kv)) sensors;
             ticks := ticks w |}
  /\ (forall k sd, dict_get k out.1 = Some sd ->
        dict_get k acc = Some sd
        \/ (In k (dict_keys sensors) /\ _is_numeric_value env (sd_value sd) = true)).
Proof.
  revert acc w; induction sensors as [|[k0 e0] sensors IH]; intros acc w; cbn zeta.
  - cbn [collect_sensors List.map]. rewrite run_ret, List.app_nil_r. cbn [fst snd].
    split; [now destruct w|]. intros k sd H. now left.
  - cbn [collect_sensors]. rewrite run_bind, get_sensor_state_spec. cbn [fst snd].
    set (w1 := {| bot := bot w; calls := calls w ++ [GetState e0]; ticks := ticks w |}).
    assert (Hcalls : forall acc',
      (collect_sensors env sensors acc' w1).2
      = {| bot := bot w;
           calls := calls w ++ List.map (fun kv => GetState (snd kv)) ((k0, e0) :: sensors);
           ticks := ticks w |}).
    { intros acc'. destruct (IH acc' w1) as [-> _]. subst w1. cbn.
      now rewrite <- List.app_assoc. }
    assert (Hkeep : forall k sd,
      dict_get k (collect_sensors env sensors acc w1).1 = Some sd ->
      dict_get k acc = Some sd
      \/ (In k (dict_keys ((k0, e0) :: sensors))
          /\ _is_numeric_value env (sd_value sd) = true)).
    { intros k sd H. destruct (IH acc w1) as [_ Hacc].
      destruct (Hacc k sd H) as [?|[? ?]]; [now left|right; split; [now right|easy]]. }
    destruct (option_map _parse_sensor_data _) as [d|]; [|split; [apply Hcalls|apply Hkeep]].
    destruct (_is_numeric_value env (sd_value d)) eqn:Hnum;
      [|split; [apply Hcalls|apply Hkeep]].
    split; [apply Hcalls|]. intros k sd H.
    destruct (IH (dict_set k0 d acc) w1) as [_ Hacc].
    destruct (Hacc k sd H) as [Hset|[Hin Hn]]; [|right; split; [now right|easy]].
    destruct (decide (k0 = k)) as [->|Hne].
    + rewrite dict_get_set_eq in Hset. injection Hset as <-.
      right. split; [now left|exact Hnum].
    + rewrite dict_get_set_ne in Hset by exact Hne. now left.
Qed.

(** X10. Sensor data of an area.  For an area without a sensor mapping
    nothing is queried, nothing is stored and the result is [None].  For an
    area with a mapping every sensor is queried once, in the order of the
    mapping; the result is stored in [sensors_cache] under the area name;
    and every reading in it is numeric: its value is non-empty, is none of
    "unavailable", "unknown", "None", and parses as a float, so readings the
    hub reports as unavailable never appear. *)
Theorem sensor_data_is_numeric (area_name : str) (w : World) :
  let out := get_kws_sensors_data env area_name w in
  match dict_get area_name SENSORS_MAP with
  | None => out = (None, w)
  | Some sensors =>
    exists d,
      out.1 = Some d
      /\ calls out.2 = calls w ++ List.map (fun kv => GetState (snd kv)) sensors
      /\ dict_get area_name (sensors_cache (bot out.2)) = Some d
      /\ (forall k sd, dict_get k d = Some sd ->
            In k (dict_keys sensors)
            /\ sd_value sd <> []
            /\ str_in (sd_value sd) INVALID_STATES = false
            /\ float_ok env (sd_value sd) = true)
  end.
Proof.
  cbn zeta. unfold get_kws_sensors_data.
  destruct (dict_get area_name SENSORS_MAP) as [sensors|]; [|reflexivity].
  rewrite !run_bind, run_modify_bot, run_ret. cbn [fst snd].
  destruct (collect_sensors_spec sensors [] w) as [Hw Hd]. cbn zeta in *.
  eexists. split; [reflexivity|]. rewrite Hw. cbn [calls bot sensors_cache set_sensors_cache].
  split; [reflexivity|]. split; [apply dict_get_set_eq|].
  intros k sd H. destruct (Hd k sd H) as [Hnil|[Hin Hnum]]; [discriminate Hnil|].
  unfold _is_numeric_value in Hnum.
  apply andb_prop in Hnum as [[Hne Hinv]%andb_prop Hfl].
  repeat split; try assumption.
  - intros E. rewrite E in Hne. discriminate Hne.
  - now destruct (str_in (sd_value sd) INVALID_STATES).
Qed.
End Sensors.

(** ** Start-up *)

Section Startup.
Variable env : Env.

(** X11. Start-up ([run] before its first poll): from a bot without a raw
    device list the connection test fetches the device list once and the
    first load groups that list without asking the hub again; afterwards
    the raw list and its grouping are stored. *)
Theorem startup_fetches_once (w : World) :
  cache_wf (bot w) -> _all_devices (bot w) = None ->
  let out := run env 0 w in
  let l := fetched_at env (List.length (calls w)) in
  calls out.2 = calls w ++ [GetStates]
  /\ _all_devices (bot out.2) = Some l
  /\ devices_cache (bot out.2) = grouping_of l
  /\ out.1 = {| error_count := 0; invalidations := 0 |}.
Proof.
  intros Hwf Hraw. cbn zeta. unfold run, run_telegram_bot. cbn [iterate].
  rewrite !run_bind, run_ret, (get_all_devices_miss env w Hraw). cbn [fst snd].
  rewrite load_regroup with (l := fetched_at env (List.length (calls w)))
    by (first [exact Hwf|reflexivity]).
  cbn [fst snd calls bot]. repeat split.
Qed.
End Startup.

Lemma startup_fetches_once_witness :
  cache_wf (bot fresh) /\ _all_devices (bot fresh) = None
  /\ calls (run lamp_on_env 0 fresh).2 = calls fresh ++ [GetStates].
Proof.
  refine (conj eq_refl (conj eq_refl _)).
  exact (proj1 (startup_fetches_once lamp_on_env fresh eq_refl eq_refl)).
Defined.

(** ** The overview of all areas *)

Section Overview.
Variable env : Env.

Lemma dict_mem_set {V} (k k' : str) (v : V) (d : dict V) :
  dict_mem k (dict_set k' v d) = str_eqb k' k || dict_mem k d.
Proof.
  unfold dict_mem. destruct (str_eqb k' k) eqn:E.
  - apply str_eqb_eq in E. subst. now rewrite dict_get_set_eq.
  - apply str_eqb_neq in E. now rewrite dict_get_set_ne.
Qed.

Lemma NoDup_filter_keys {V} (Q : str * V -> bool) (d : dict V) :
  List.NoDup (dict_keys d) -> List.NoDup (dict_keys (List.filter Q d)).
Proof.
  induction d as [|[k v] d IH]; cbn [dict_keys List.map List.filter]; [constructor|].
  intros [Hk Hd]%List.NoDup_cons_iff. destruct (Q (k, v)); [|now apply IH].
  cbn [List.map fst]. constructor; [|now apply IH].
  intros Hin. apply Hk. apply List.in_map_iff in Hin as ([k' v'] & <- & Hin).
  apply List.filter_In in Hin as [Hin _]. apply List.in_map_iff. now exists (k', v').
Qed.

Lemma In_dict_get {V} (k : str) (v : V) (d : dict V) :
  List.NoDup (dict_keys d) -> In (k, v) d -> dict_get k d = Some v.
Proof.
  induction d as [|[k' v'] d IH]; cbn [dict_keys List.map dict_get In]; [easy|].
  intros [Hk Hd]%List.NoDup_cons_iff [Heq|Hin].
  - injection Heq as -> ->. now rewrite str_eqb_refl.
  - destruct (str_eqb k k') eqn:E; [|now apply IH].
    apply str_eqb_eq in E. subst k'. exfalso. apply Hk.
    apply List.in_map_iff. now exists (k, v).
Qed.

Lemma grouping_keys_nodup (l : list StateObj) : List.NoDup (dict_keys (grouping_of l)).
Proof.
  unfold grouping_of. apply NoDup_filter_keys.
  rewrite group_devices_keys. apply empty_houses_keys_nodup.
Qed.

Lemma summarise_areas_spec (areas : dict (list StateObj)) (result : dict AreaSummary)
      (w : World) :
  let out := summarise_areas env areas result w in
  calls out.2 = calls w /\ bot out.2 = bot w
  /\ (forall area, dict_mem area result = true \/ In area (dict_keys areas) ->
        dict_mem area out.1 = true)
  /\ (forall area s, dict_get area out.1 = Some s ->
        dict_get area result = Some s
        \/ exists ds, In (area, ds) areas
             /\ as_device_count s = List.length ds
             /\ as_on_count s = count_on ds
             /\ as_preview_devices s = List.map (device_of area) (List.firstn 4 ds)).
Proof.
  revert result w; induction areas as [|[a ds] areas IH]; intros result w; cbn zeta.
  - cbn [summarise_areas]. rewrite run_ret. cbn [fst snd]. repeat split.
    + intros area [H|[]]. exact H.
    + intros area s H. now left.
  - cbn [summarise_areas]. rewrite run_bind, run_time_time. cbn [fst snd].
    match goal with |- context [summarise_areas env areas ?r ?w1] =>
      destruct (IH r w1) as (H1 & H2 & H3 & H4) end.
    cbn zeta in *. split; [exact H1|]. split; [exact H2|]. split.
    + intros area Harea. apply H3. rewrite dict_mem_set.
      destruct Harea as [Hm|[<-|Hin]].
      * left. rewrite Hm. apply orb_true_r.
      * left. cbn [fst]. now rewrite str_eqb_refl.
      * now right.
    + intros area s Hs. destruct (H4 area s Hs) as [Hset|(ds' & Hin & Hrest)].
      * destruct (decide (a = area)) as [->|Hne].
        -- rewrite dict_get_set_eq in Hset. injection Hset as <-.
           right. exists ds. repeat split. now left.
        -- rewrite dict_get_set_ne in Hset by exact Hne. now left.
      * right. exists ds'. split; [now right|exact Hrest].
Qed.

(** X12. [get_all_areas_for_api] always fetches the device list anew (one
    hub request) and reports every non-empty group of its grouping: the
    device count (never zero), the number of devices that are on (at most
    the device count), and as preview the first four devices of the group,
    in grouping order. *)
Theorem areas_overview (w : World) :
  let out := get_all_areas_for_api env w in
  let g := grouping_of (fetched_at env (List.length (calls w))) in
  calls out.2 = calls w ++ [GetStates]
  /\ (forall area, dict_mem area g = true -> dict_mem area out.1 = true)
  /\ (forall area s, dict_get area out.1 = Some s ->
        let ds := dict_get_default area g [] in
        as_device_count s = List.length ds
        /\ 0 < as_device_count s
        /\ as_on_count s = count_on ds
        /\ as_on_count s <= as_device_count s
        /\ as_preview_devices s = List.map (device_of area) (List.firstn 4 ds)
        /\ List.length (as_preview_devices s) = Nat.min 4 (as_device_count s)).
Proof.
  cbn zeta. unfold get_all_areas_for_api. rewrite run_bind, load_forced. cbn [fst snd].
  set (g := grouping_of (fetched_at env (List.length (calls w)))).
  match goal with |- context [summarise_areas env g [] ?w1] =>
    destruct (summarise_areas_spec g [] w1) as (H1 & H2 & H3 & H4) end.
  cbn zeta in *. split; [exact H1|]. split.
  - intros area Hm. apply H3. right. now apply dict_mem_keys.
  - intros area s Hs. destruct (H4 area s Hs) as [Hnil|(ds & Hin & Hc & Ho & Hp)];
      [discriminate Hnil|].
    assert (Hget : dict_get_default area g [] = ds).
    { unfold dict_get_default.
      now rewrite (In_dict_get area ds g (grouping_keys_nodup _) Hin). }
    rewrite Hget, Hc, Ho, Hp.
    assert (Hne : 0 < List.length ds).
    { unfold g, grouping_of in Hin. apply List.filter_In in Hin as [_ Hne].
      destruct ds; [discriminate Hne|cbn; lia]. }
    repeat split; try exact Hne.
    + unfold count_on. apply List.filter_length_le.
    + now rewrite List.length_map, List.length_firstn.
Qed.
End Overview.

(** ** Control from the chat and the group menu *)

Section ChatControl.
Variable env : Env.
Variable chat : Z.

(** X13. The device loop of [control_single_device] controls the first device of the group
    whose short name equals the requested one, and only that one: exactly
    one service call is made, for that device's domain and entity, and
    everything else sent is a full-state fetch or a message to the chat.
    When no device of the group has the requested short name no service
    call is made at all. Sessions and the update offset are untouched. *)
Theorem chat_control_first_match (action target area_name : str)
        (devices : list StateObj) (w : World) :
  let w' := (control_first_match env chat action target area_name devices w).2 in
  match List.find (short_name_is area_name target) devices with
  | None =>
    exists new, calls w' = calls w ++ new
                /\ List.forallb (fetch_or_message chat) new = true
  | Some d =>
    exists new,
      calls w' = calls w ++ TurnService (domain_of (entity_id d)) action (entity_id d) :: new
      /\ List.forallb (fetch_or_message chat) new = true
  end
  /\ user_states (bot w') = user_states (bot w)
  /\ last_id (bot w') = last_id (bot w).
Proof.
  cbn zeta. induction devices as [|d devices IH]; cbn [control_first_match List.find].
  - destruct (quiet_send_or_log env chat
                (u "Устройство не найдено: " ++ target) HOUSE (Some area_name) w)
      as [[Hg Hl] Hu].
    split; [exact Hg|]. split; assumption.
  - unfold short_name_is at 1.
    destruct (str_eqb (shorten_name (friendly_name_or_empty d) area_name) target);
      [|exact IH].
    rewrite run_bind, control_device_spec. cbn [fst snd].
    set (w1 := {| bot := bot w |}).
    assert (Hq : forall m : M unit,
               (forall w0, quiet (fetch_or_message chat) w0 (m w0).2) ->
               (exists new,
                   calls (m w1).2
                   = calls w ++ TurnService (domain_of (entity_id d)) action (entity_id d)
                              :: new
                   /\ List.forallb (fetch_or_message chat) new = true)
               /\ user_states (bot (m w1).2) = user_states (bot w)
               /\ last_id (bot (m w1).2) = last_id (bot w)).
    { intros m Hm. destruct (Hm w1) as [[(new & Hc & Hf) Hl] Hu].
      split; [|split; assumption].
      exists new. split; [|exact Hf]. rewrite Hc. subst w1. cbn [calls].
      now rewrite <- List.app_assoc. }
    destruct (hub_service env _ _ _ _); apply Hq; intros w0.
    + apply quiet_bind; [apply quiet_clear_cache|intros; apply quiet_send_or_log].
    + apply quiet_send_or_log.
Qed.

(** X14. The group menu.  A group without devices gets the single row
    "Назад".  Otherwise the menu starts with the row "Статус", "Данные",
    ends with the row "Назад", and has in between two rows for each of the
    first six devices of the group (the state row and the opposite action
    row), so it never has more than 14 rows. *)
Theorem house_menu_rows (area_name : str) (w : World) :
  let devices := (get_area_devices env area_name false w).1 in
  let menu := (create_house_menu env area_name w).1 in
  match devices with
  | [] => menu = [[BACK]]
  | _ :: _ =>
    menu = [[u "Статус"; u "Данные"]]
           ++ List.flat_map (device_rows area_name) (List.firstn 6 devices) ++ [[BACK]]
    /\ List.length menu = 2 + 2 * Nat.min 6 (List.length devices)
    /\ List.length menu <= 14
  end.
Proof.
  cbn zeta. unfold create_house_menu. rewrite run_bind.
  destruct (get_area_devices env area_name false w).1 as [|d ds] eqn:Hd;
    [reflexivity|].
  rewrite run_ret. cbn [fst].
  assert (Hlen : forall l : list StateObj,
             List.length (List.flat_map (device_rows area_name) l) = 2 * List.length l).
  { induction l as [|x l IH]; [reflexivity|].
    cbn [List.flat_map]. rewrite List.length_app, IH. cbn [device_rows List.length]. lia. }
  split; [reflexivity|].
  change (List.length
            ([[u "Статус"; u "Данные"]]
             ++ List.flat_map (device_rows area_name) (List.firstn 6 (d :: ds))
             ++ [[BACK]])
          = 2 + 2 * Nat.min 6 (List.length (d :: ds))
          /\ List.length
               ([[u "Статус"; u "Данные"]]
                ++ List.flat_map (device_rows area_name) (List.firstn 6 (d :: ds))
                ++ [[BACK]]) <= 14).
  rewrite !List.length_app, Hlen, List.length_firstn. cbn [List.length]. lia.
Qed.
End ChatControl.

(** ** From a menu button back to the device *)











(** ** The size of a grouping *)

Lemma total_from {V} (d : dict (list V)) (a : nat) :
  List.fold_left (fun acc kv => acc + List.length (snd kv)) d a
  = a + List.fold_left (fun acc kv => acc + List.length (snd kv)) d 0.
Proof.
  revert a; induction d as [|kv d IH]; intros a; cbn [List.fold_left]; [lia|].
  rewrite IH, (IH (0 + _)). lia.
Qed.

Lemma total_cons (k : str) (v : list StateObj) (d : dict (list StateObj)) :
  total_devices_of ((k, v) :: d) = List.length v + total_devices_of d.
Proof. unfold total_devices_of. cbn [List.fold_left snd]. now rewrite total_from. Qed.

Lemma total_alter (x : StateObj) (k : str) (d : dict (list StateObj)) :
  dict_mem k d = true ->
  total_devices_of (dict_alter (fun l => l ++ [x]) k d) = S (total_devices_of d).
Proof.
  unfold dict_mem. induction d as [|[k' v] d IH]; cbn [dict_get dict_alter]; [discriminate|].
  destruct (str_eqb k k'); intros H.
  - rewrite !total_cons, List.length_app. cbn [List.length]. lia.
  - rewrite !total_cons, IH by exact H. lia.
Qed.

Lemma total_group_devices (l : list StateObj) :
  total_devices_of (group_devices l) = List.length l.
Proof.
  unfold group_devices.
  assert (H : forall houses,
    (forall n, dict_mem (_assign_device_to_house n) houses = true) ->
    total_devices_of
      (List.fold_left
         (fun houses device =>
            dict_alter (fun l => l ++ [device])
                       (_assign_device_to_house (friendly_name_or_empty device)) houses)
         l houses)
    = total_devices_of houses + List.length l).
  { induction l as [|d l IH]; intros houses Hk; cbn [List.fold_left List.length]; [lia|].
    rewrite IH.
    - rewrite total_alter by apply Hk. lia.
    - intros n. rewrite dict_mem_alter. apply Hk. }
  rewrite H by apply assign_is_house_key.
  replace (total_devices_of empty_houses) with 0 by (vm_compute; reflexivity). lia.
Qed.

Lemma total_filter_nonempty (d : dict (list StateObj)) :
  total_devices_of (List.filter (fun kv => is_nonempty (snd kv)) d) = total_devices_of d.
Proof.
  induction d as [|[k v] d IH]; [reflexivity|]. cbn [List.filter snd].
  destruct v as [|x v]; cbn [is_nonempty]; rewrite !total_cons, ?IH; reflexivity.
Qed.

(** X16. A grouping holds every controllable device of the list exactly
    once and nothing else: the sizes of its groups add up to the number of
    controllable devices, no group is empty, and every group name is one of
    the eleven fixed names ("Домик 1" to "Домик 10" and the general
    bucket). *)
Theorem grouping_totals (l : list StateObj) :
  total_devices_of (grouping_of l)
  = List.length (List.filter (fun d => _is_controllable_device (entity_id d)) l)
  /\ (forall k v, In (k, v) (grouping_of l) ->
        v <> [] /\ dict_mem k empty_houses = true).
Proof.
  split.
  - unfold grouping_of. now rewrite total_filter_nonempty, total_group_devices.
  - intros k v Hin. unfold grouping_of in Hin.
    apply List.filter_In in Hin as [Hin Hne]. split.
    + intros ->. discriminate Hne.
    + rewrite <- dict_mem_group_devices
        with (l := List.filter (fun d => _is_controllable_device (entity_id d)) l).
      apply dict_mem_keys. apply List.in_map_iff. now exists (k, v).
Qed.

(** ** The grouped cache stays well keyed *)

Lemma kw_ret {A} (a : A) (Q : A -> Prop) : Q a -> keeps_wf (mret a) Q.
Proof. intros H w Hw. rewrite run_ret. now split. Qed.

Lemma kw_bind {A B} (m : M A) (k : A -> M B) (R : A -> Prop) (Q : B -> Prop) :
  keeps_wf m R -> (forall a, R a -> keeps_wf (k a) Q) -> keeps_wf (m ≫= k) Q.
Proof.
  intros Hm Hk w Hw. rewrite run_bind. destruct (Hm w Hw) as [H1 H2].
  now apply Hk.
Qed.

Lemma kw_any {A} (m : M A) (Q : A -> Prop) : keeps_wf m Q -> keeps_wf m any.
Proof. intros H w Hw. destruct (H w Hw). now split. Qed.

Create HintDb kw.

Lemma kw_get_bot : keeps_wf get_bot any.
Proof. intros w Hw. now split. Qed.
#[global] Hint Extern 0 (keeps_wf get_bot _) => apply kw_get_bot : kw.

Lemma kw_time_time (env : Env) : keeps_wf (time_time env) any.
Proof. intros w Hw. now split. Qed.
#[global] Hint Extern 0 (keeps_wf (time_time _) _) => apply kw_time_time : kw.

Lemma kw_send {A} (r : Request) (answer : nat -> A) : keeps_wf (send r answer) any.
Proof. intros w Hw. now split. Qed.
#[global] Hint Extern 0 (keeps_wf (send _ _) _) => apply kw_send : kw.

Lemma kw_modify_bot (f : Bot -> Bot) :
  (forall b, cache_wf b -> cache_wf (f b)) -> keeps_wf (modify_bot f) any.
Proof. intros Hf w Hw. split; [now apply Hf|exact I]. Qed.


Ltac kw_step :=
  match goal with
  | |- keeps_wf (_ ≫= _) _ => eapply kw_bind; [|intros ? ?]
  | |- keeps_wf (mret _) any => apply kw_ret; exact I
  | |- keeps_wf (mret _) _ => apply (kw_ret _ any); exact I
  | |- keeps_wf (modify_bot _) _ =>
    apply kw_modify_bot; intros ? ?; first [assumption|reflexivity]
  | |- keeps_wf (when ?c _) _ => unfold when; destruct c
  | |- keeps_wf (if ?c then _ else _) _ => destruct c
  | |- keeps_wf (match ?x with _ => _ end) _ => destruct x
  | |- keeps_wf _ _ => solve [eauto with kw]
  end.

Ltac kw_auto := repeat kw_step.

Section WellKeyed.
Variable env : Env.

Lemma kw_set_grouped (g : dict (list StateObj)) :
  dict_mem ALL g = false -> keeps_wf (modify_bot (set_devices_cache g)) any.
Proof. intros H. apply kw_modify_bot. intros b _. exact H. Qed.

Lemma kw_get_all_devices : keeps_wf (get_all_devices env) any.
Proof. unfold get_all_devices. kw_auto. Qed.
#[local] Hint Extern 0 (keeps_wf (get_all_devices _) _) => apply kw_get_all_devices : kw.

Lemma kw_clear_cache : keeps_wf _clear_cache any.
Proof. unfold _clear_cache. kw_auto. Qed.
#[local] Hint Extern 0 (keeps_wf _clear_cache _) => apply kw_clear_cache : kw.

Lemma kw_manual_area_grouping (f : bool) :
  keeps_wf (manual_area_grouping env f) (fun g => dict_mem ALL g = false).
Proof.
  unfold manual_area_grouping.
  eapply kw_bind; [unfold when; destruct f; kw_auto|intros ? _].
  eapply kw_bind; [apply kw_get_all_devices|intros l _].
  apply kw_ret. apply grouping_wf.
Qed.
#[local] Hint Extern 0 (keeps_wf (manual_area_grouping _ _) _) => apply kw_manual_area_grouping : kw.

Lemma kw_load (f : bool) : keeps_wf (load_areas_with_devices env f) any.
Proof.
  unfold load_areas_with_devices.
  eapply kw_bind; [apply kw_time_time|intros now _].
  eapply kw_bind; [apply kw_get_bot|intros b _].
  destruct (_ && _); [kw_auto|].
  eapply kw_bind; [apply kw_manual_area_grouping|intros g Hg].
  eapply kw_bind; [apply kw_set_grouped, Hg|intros ? _]. kw_auto.
Qed.
#[local] Hint Extern 0 (keeps_wf (load_areas_with_devices _ _) _) => apply kw_load : kw.

Lemma kw_get_area_devices (a : str) (f : bool) : keeps_wf (get_area_devices env a f) any.
Proof. unfold get_area_devices. kw_auto. Qed.
#[local] Hint Extern 0 (keeps_wf (get_area_devices _ _ _) _) => apply kw_get_area_devices : kw.

Lemma kw_get_all_areas_list : keeps_wf (get_all_areas_list env) any.
Proof. unfold get_all_areas_list. kw_auto. Qed.
#[local] Hint Extern 0 (keeps_wf (get_all_areas_list _) _) => apply kw_get_all_areas_list : kw.

Lemma kw_create_house_menu (a : str) : keeps_wf (create_house_menu env a) any.
Proof. unfold create_house_menu. kw_auto. Qed.
#[local] Hint Extern 0 (keeps_wf (create_house_menu _ _) _) => apply kw_create_house_menu : kw.

Lemma kw_create_main_menu : keeps_wf (create_main_menu env) any.
Proof. unfold create_main_menu. kw_auto. Qed.
#[local] Hint Extern 0 (keeps_wf (create_main_menu _) _) => apply kw_create_main_menu : kw.
End WellKeyed.

#[global] Hint Extern 0 (keeps_wf (get_all_devices _) _) => apply kw_get_all_devices : kw.
#[global] Hint Extern 0 (keeps_wf _clear_cache _) => apply kw_clear_cache : kw.
#[global] Hint Extern 0 (keeps_wf (manual_area_grouping _ _) _) => apply kw_manual_area_grouping : kw.
#[global] Hint Extern 0 (keeps_wf (load_areas_with_devices _ _) _) => apply kw_load : kw.
#[global] Hint Extern 0 (keeps_wf (get_area_devices _ _ _) _) => apply kw_get_area_devices : kw.
#[global] Hint Extern 0 (keeps_wf (get_all_areas_list _) _) => apply kw_get_all_areas_list : kw.
#[global] Hint Extern 0 (keeps_wf (create_house_menu _ _) _) => apply kw_create_house_menu : kw.
#[global] Hint Extern 0 (keeps_wf (create_main_menu _) _) => apply kw_create_main_menu : kw.


Lemma kw_for_each {A} (l : list A) (body : A -> M unit) :
  (forall x, keeps_wf (body x) any) -> keeps_wf (for_each l body) any.
Proof.
  intros Hb. induction l as [|x l IH]; cbn [for_each]; [kw_auto|].
  eapply kw_bind; [apply Hb|intros ? ?; exact IH].
Qed.

Section WellKeyedMethods.
Variable env : Env.

Lemma kw_get_sensor_state (e : str) : keeps_wf (get_sensor_state env e) any.
Proof. unfold get_sensor_state. kw_auto. Qed.
#[local] Hint Extern 0 (keeps_wf (get_sensor_state _ _) _) => apply kw_get_sensor_state : kw.

Lemma kw_collect_sensors (sensors : dict str) (acc : dict SensorData) :
  keeps_wf (collect_sensors env sensors acc) any.
Proof.
  revert acc; induction sensors as [|[k e] sensors IH]; intros acc;
    cbn [collect_sensors]; kw_auto; try apply IH.
Qed.
#[local] Hint Extern 0 (keeps_wf (collect_sensors _ _ _) _) => apply kw_collect_sensors : kw.

Lemma kw_get_kws_sensors_data (a : str) : keeps_wf (get_kws_sensors_data env a) any.
Proof. unfold get_kws_sensors_data. kw_auto. Qed.
#[local] Hint Extern 0 (keeps_wf (get_kws_sensors_data _ _) _) => apply kw_get_kws_sensors_data : kw.

Lemma kw_send_message (chat : Z) (body mt : str) (a : option str) :
  keeps_wf (send_message env chat body mt a) any.
Proof. unfold send_message. kw_auto. Qed.
#[local] Hint Extern 0 (keeps_wf (send_message _ _ _ _ _) _) => apply kw_send_message : kw.

Lemma kw_send_or_log (chat : Z) (body mt : str) (a : option str) :
  keeps_wf (send_or_log env chat body mt a) any.
Proof. unfold send_or_log. kw_auto. Qed.
#[local] Hint Extern 0 (keeps_wf (send_or_log _ _ _ _ _) _) => apply kw_send_or_log : kw.

Lemma kw_set_user_state (chat : Z) (st : str) (data : option str) :
  keeps_wf (set_user_state chat st data) any.
Proof. unfold set_user_state. kw_auto. Qed.
#[local] Hint Extern 0 (keeps_wf (set_user_state _ _ _) _) => apply kw_set_user_state : kw.

Lemma kw_get_user_state (chat : Z) : keeps_wf (get_user_state chat) any.
Proof. unfold get_user_state. kw_auto. Qed.
#[local] Hint Extern 0 (keeps_wf (get_user_state _) _) => apply kw_get_user_state : kw.

Lemma kw_control_device (e action : str) : keeps_wf (control_device env e action) any.
Proof. unfold control_device. kw_auto. Qed.
#[local] Hint Extern 0 (keeps_wf (control_device _ _ _) _) => apply kw_control_device : kw.

Lemma kw_get_device_state (e : str) : keeps_wf (get_device_state env e) any.
Proof. unfold get_device_state. kw_auto. Qed.
#[local] Hint Extern 0 (keeps_wf (get_device_state _ _) _) => apply kw_get_device_state : kw.

Lemma kw_show_area_status (chat : Z) (a : str) : keeps_wf (show_area_status env chat a) any.
Proof. unfold show_area_status. kw_auto. Qed.
#[local] Hint Extern 0 (keeps_wf (show_area_status _ _ _) _) => apply kw_show_area_status : kw.

Lemma kw_show_all_houses_status (chat : Z) :
  keeps_wf (show_all_houses_status env chat) any.
Proof. unfold show_all_houses_status. kw_auto. Qed.
#[local] Hint Extern 0 (keeps_wf (show_all_houses_status _ _) _) => apply kw_show_all_houses_status : kw.

Lemma kw_show_kws_data (chat : Z) (a : str) : keeps_wf (show_kws_data env chat a) any.
Proof. unfold show_kws_data. kw_auto. Qed.
#[local] Hint Extern 0 (keeps_wf (show_kws_data _ _ _) _) => apply kw_show_kws_data : kw.

Lemma kw_control_first_match (chat : Z) (action target a : str) (devices : list StateObj) :
  keeps_wf (control_first_match env chat action target a devices) any.
Proof.
  induction devices as [|d devices IH]; cbn [control_first_match]; kw_auto; try exact IH.
Qed.
#[local] Hint Extern 0 (keeps_wf (control_first_match _ _ _ _ _ _) _) => apply kw_control_first_match : kw.

Lemma kw_control_single_device (chat : Z) (txt a : str) :
  keeps_wf (control_single_device env chat txt a) any.
Proof. unfold control_single_device. cbv zeta. kw_auto. Qed.
#[local] Hint Extern 0 (keeps_wf (control_single_device _ _ _ _) _) => apply kw_control_single_device : kw.

Lemma kw_handle_house_commands (chat : Z) (txt a : str) :
  keeps_wf (handle_house_commands env chat txt a) any.
Proof. unfold handle_house_commands. cbv zeta. kw_auto. Qed.
#[local] Hint Extern 0 (keeps_wf (handle_house_commands _ _ _ _) _) => apply kw_handle_house_commands : kw.

Lemma kw_on_handle_error (chat : Z) : keeps_wf (on_handle_error env chat) any.
Proof. unfold on_handle_error. kw_auto. Qed.
#[local] Hint Extern 0 (keeps_wf (on_handle_error _ _) _) => apply kw_on_handle_error : kw.

Lemma kw_handle_message (chat : Z) (txt : str) : keeps_wf (handle_message env chat txt) any.
Proof.
  unfold handle_message. cbv zeta.
  change (us_state {| us_state := MAIN; us_data := None |}) with MAIN.
  change (str_eqb MAIN MAIN) with true. cbv iota. kw_auto.
Qed.
#[local] Hint Extern 0 (keeps_wf (handle_message _ _ _) _) => apply kw_handle_message : kw.

Lemma kw_handle_update (update : Update) : keeps_wf (handle_update env update) any.
Proof. unfold handle_update. kw_auto. Qed.
#[local] Hint Extern 0 (keeps_wf (handle_update _ _) _) => apply kw_handle_update : kw.

Lemma kw_poll_failed (s : LoopState) : keeps_wf (poll_failed s) any.
Proof. unfold poll_failed. cbv zeta. kw_auto. Qed.
#[local] Hint Extern 0 (keeps_wf (poll_failed _) _) => apply kw_poll_failed : kw.

Lemma kw_poll_once (s : LoopState) : keeps_wf (poll_once env s) any.
Proof.
  unfold poll_once. cbv zeta. kw_auto; try (apply kw_for_each; intros; apply kw_handle_update).
Qed.
#[local] Hint Extern 0 (keeps_wf (poll_once _ _) _) => apply kw_poll_once : kw.

Lemma kw_iterate (n : nat) (s : LoopState) : keeps_wf (iterate env n s) any.
Proof.
  revert s; induction n as [|n IH]; intros s; cbn [iterate]; kw_auto; try apply IH.
Qed.
#[local] Hint Extern 0 (keeps_wf (iterate _ _ _) _) => apply kw_iterate : kw.

Lemma kw_run (n : nat) : keeps_wf (run env n) any.
Proof. unfold run, run_telegram_bot. kw_auto. Qed.
#[local] Hint Extern 0 (keeps_wf (run _ _) _) => apply kw_run : kw.

Lemma kw_get_area_data_for_api (a : str) : keeps_wf (get_area_data_for_api env a) any.
Proof. unfold get_area_data_for_api. cbv zeta. kw_auto. Qed.
#[local] Hint Extern 0 (keeps_wf (get_area_data_for_api _ _) _) => apply kw_get_area_data_for_api : kw.

Lemma kw_summarise_areas (areas : dict (list StateObj)) (result : dict AreaSummary) :
  keeps_wf (summarise_areas env areas result) any.
Proof.
  revert result; induction areas as [|[a ds] areas IH]; intros result;
    cbn [summarise_areas]; cbv zeta; kw_auto; try apply IH.
Qed.
#[local] Hint Extern 0 (keeps_wf (summarise_areas _ _ _) _) => apply kw_summarise_areas : kw.

Lemma kw_get_all_areas_for_api : keeps_wf (get_all_areas_for_api env) any.
Proof. unfold get_all_areas_for_api. kw_auto. Qed.
#[local] Hint Extern 0 (keeps_wf (get_all_areas_for_api _) _) => apply kw_get_all_areas_for_api : kw.

Lemma kw_control_device_api (e action : str) : keeps_wf (control_device_api env e action) any.
Proof. unfold control_device_api. kw_auto. Qed.
#[local] Hint Extern 0 (keeps_wf (control_device_api _ _ _) _) => apply kw_control_device_api : kw.
End WellKeyedMethods.

#[global] Hint Extern 0 (keeps_wf (get_sensor_state _ _) _) => apply kw_get_sensor_state : kw.
#[global] Hint Extern 0 (keeps_wf (collect_sensors _ _ _) _) => apply kw_collect_sensors : kw.
#[global] Hint Extern 0 (keeps_wf (get_kws_sensors_data _ _) _) => apply kw_get_kws_sensors_data : kw.
#[global] Hint Extern 0 (keeps_wf (send_message _ _ _ _ _) _) => apply kw_send_message : kw.
#[global] Hint Extern 0 (keeps_wf (send_or_log _ _ _ _ _) _) => apply kw_send_or_log : kw.
#[global] Hint Extern 0 (keeps_wf (set_user_state _ _ _) _) => apply kw_set_user_state : kw.
#[global] Hint Extern 0 (keeps_wf (get_user_state _) _) => apply kw_get_user_state : kw.
#[global] Hint Extern 0 (keeps_wf (control_device _ _ _) _) => apply kw_control_device : kw.
#[global] Hint Extern 0 (keeps_wf (get_device_state _ _) _) => apply kw_get_device_state : kw.
#[global] Hint Extern 0 (keeps_wf (show_area_status _ _ _) _) => apply kw_show_area_status : kw.
#[global] Hint Extern 0 (keeps_wf (show_all_houses_status _ _) _) => apply kw_show_all_houses_status : kw.
#[global] Hint Extern 0 (keeps_wf (show_kws_data _ _ _) _) => apply kw_show_kws_data : kw.
#[global] Hint Extern 0 (keeps_wf (control_first_match _ _ _ _ _ _) _) => apply kw_control_first_match : kw.
#[global] Hint Extern 0 (keeps_wf (control_single_device _ _ _ _) _) => apply kw_control_single_device : kw.
#[global] Hint Extern 0 (keeps_wf (handle_house_commands _ _ _ _) _) => apply kw_handle_house_commands : kw.
#[global] Hint Extern 0 (keeps_wf (on_handle_error _ _) _) => apply kw_on_handle_error : kw.
#[global] Hint Extern 0 (keeps_wf (handle_message _ _ _) _) => apply kw_handle_message : kw.
#[global] Hint Extern 0 (keeps_wf (handle_update _ _) _) => apply kw_handle_update : kw.
#[global] Hint Extern 0 (keeps_wf (poll_failed _) _) => apply kw_poll_failed : kw.
#[global] Hint Extern 0 (keeps_wf (poll_once _ _) _) => apply kw_poll_once : kw.
#[global] Hint Extern 0 (keeps_wf (iterate _ _ _) _) => apply kw_iterate : kw.
#[global] Hint Extern 0 (keeps_wf (run _ _) _) => apply kw_run : kw.
#[global] Hint Extern 0 (keeps_wf (get_area_data_for_api _ _) _) => apply kw_get_area_data_for_api : kw.
#[global] Hint Extern 0 (keeps_wf (summarise_areas _ _ _) _) => apply kw_summarise_areas : kw.
#[global] Hint Extern 0 (keeps_wf (get_all_areas_for_api _) _) => apply kw_get_all_areas_for_api : kw.
#[global] Hint Extern 0 (keeps_wf (control_device_api _ _ _) _) => apply kw_control_device_api : kw.

Section WellKeyedRoutes.
Variable env : Env.
Variable DEBUG : bool.
Variable SECRET_KEY : str.

Lemma kw_require_auth (h : option str) (f : M Api.Response) :
  keeps_wf f any -> keeps_wf (Api.require_auth DEBUG SECRET_KEY h f) any.
Proof.
  intros Hf. unfold Api.require_auth.
  destruct DEBUG; [exact Hf|]. destruct h as [[|c h]|]; try (apply kw_ret; exact I).
  destruct (negb _); [apply kw_ret; exact I|exact Hf].
Qed.

Lemma kw_batch_loop (ids : list str) (results : dict (option Snapshot)) :
  keeps_wf (Api.batch_loop env ids results) any.
Proof.
  revert results; induction ids as [|e ids IH]; intros results;
    cbn [Api.batch_loop]; kw_auto; try apply IH.
Qed.

Lemma kw_control_device_view (body : Api.Body Api.ControlJson) :
  keeps_wf (Api.control_device_view env body) any.
Proof. unfold Api.control_device_view. kw_auto. Qed.

Lemma kw_batch_get_devices_view (body : Api.Body Api.IdsValue) :
  keeps_wf (Api.batch_get_devices_view env body) any.
Proof. unfold Api.batch_get_devices_view. kw_auto; try apply kw_batch_loop. Qed.

Lemma kw_enter (c : entry) : keeps_wf (enter env DEBUG SECRET_KEY c) any.
Proof.
  destruct c; cbn [enter];
    unfold Api.get_area, Api.get_device, Api.control_device,
      Api.batch_get_devices, Api.refresh_cache;
    try (eapply kw_bind; [|intros ? ?; apply kw_ret; exact I]);
    try apply kw_require_auth;
    first [apply kw_control_device_view|apply kw_batch_get_devices_view|kw_auto].
Qed.
End WellKeyedRoutes.

(** X17. The grouped cache never holds the key ["all"]: a bot whose
    grouped cache lacks that key, as after [init], still lacks it after any
    sequence of entry points (starting the polling loop, chat messages, the
    HTTP routes of the mini-app, the API-side methods), whatever the hub and
    Telegram answer.  The membership test that closes [cache_valid] in
    [load_areas_with_devices] is therefore false in every state the bot can
    reach. *)
Theorem grouped_cache_never_keyed_all (env : Env) (DEBUG : bool) (SECRET_KEY : str)
    (cs : list entry) (w : World) :
  dict_mem ALL (devices_cache (bot w)) = false ->
  dict_mem ALL (devices_cache (bot (enter_all env DEBUG SECRET_KEY cs w).2)) = false.
Proof.
  intros Hw. unfold enter_all.
  exact (proj1 (kw_for_each cs _ (kw_enter env DEBUG SECRET_KEY) w Hw)).
Qed.

Lemma grouped_cache_never_keyed_all_witness :
  dict_mem ALL (devices_cache (bot fresh)) = false
  /\ dict_mem ALL
       (devices_cache
          (bot (enter_all lamp_on_env false (u "key")
                  [Run 1; RouteRefresh (Some (u "Bearer key")); AreasForApi] fresh).2))
     = false.
Proof.
  split; [reflexivity|].
  apply (grouped_cache_never_keyed_all lamp_on_env false (u "key")
           [Run 1; RouteRefresh (Some (u "Bearer key")); AreasForApi] fresh).
  reflexivity.
Defined.

(** ** The list of areas *)

Lemma sublists_filter {A} (f : A -> bool) (l : list A) :
  In (List.filter f l) (sublists l).
Proof.
  induction l as [|x l IH]; cbn [List.filter sublists]; [now left|].
  apply List.in_or_app. destruct (f x); [left|now right].
  apply List.in_map. exact IH.
Qed.

Lemma keys_filter_by {V} (Q : str * V -> bool) (m : str -> bool) (d : dict V) :
  (forall k v, In (k, v) d -> m k = Q (k, v)) ->
  dict_keys (List.filter Q d) = List.filter m (dict_keys d).
Proof.
  induction d as [|[k v] d IH]; intros H; cbn [dict_keys List.map List.filter fst];
    [reflexivity|].
  rewrite (H k v) by now left.
  change (List.map fst d) with (dict_keys d).
  rewrite <- IH by (intros; apply H; now right).
  now destruct (Q (k, v)).
Qed.

Lemma dict_get_In {V} (k : str) (v : V) (d : dict V) :
  dict_get k d = Some v -> In (k, v) d.
Proof.
  induction d as [|[k' v'] d IH]; cbn [dict_get In]; [easy|].
  destruct (str_eqb k k') eqn:E.
  - apply str_eqb_eq in E. subst. intros [= ->]. now left.
  - intros H. right. now apply IH.
Qed.

Lemma keys_filter_mem {V} (Q : str * V -> bool) (d : dict V) :
  List.NoDup (dict_keys d) ->
  dict_keys (List.filter Q d)
  = List.filter (fun k => dict_mem k (List.filter Q d)) (dict_keys d).
Proof.
  intros Hnd. apply keys_filter_by. intros k v Hin.
  destruct (Q (k, v)) eqn:EQ.
  - apply dict_mem_true. exists v. apply In_dict_get; [now apply NoDup_filter_keys|].
    apply List.filter_In. now split.
  - destruct (dict_mem k (List.filter Q d)) eqn:Em; [|reflexivity].
    apply dict_mem_true in Em as [v' Hv']. apply dict_get_In in Hv'.
    apply List.filter_In in Hv' as [Hin' HQ'].
    apply (In_dict_get _ _ _ Hnd) in Hin. apply (In_dict_get _ _ _ Hnd) in Hin'.
    congruence.
Qed.

Lemma grouping_keys (l : list StateObj) :
  dict_keys (grouping_of l)
  = List.filter (fun k => dict_mem k (grouping_of l)) (dict_keys empty_houses).
Proof.
  unfold grouping_of. rewrite <- (group_devices_keys
    (List.filter (fun device => _is_controllable_device (entity_id device)) l)).
  apply keys_filter_mem. rewrite group_devices_keys. apply empty_houses_keys_nodup.
Qed.

Lemma listing_of_house_names (ks : list str) :
  In ks (sublists (dict_keys empty_houses)) -> listing_of ks = Some ks.
Proof.
  intros H.
  assert (Hall : List.forallb listing_is_identity (sublists (dict_keys empty_houses)) = true)
    by (vm_compute; reflexivity).
  rewrite List.forallb_forall in Hall. apply Hall in H.
  unfold listing_is_identity in H. now apply bool_decide_eq_true in H.
Qed.

Lemma listing_of_grouping (l : list StateObj) :
  listing_of (dict_keys (grouping_of l)) = Some (dict_keys (grouping_of l)).
Proof.
  apply listing_of_house_names. rewrite grouping_keys. apply sublists_filter.
Qed.

Section AreasList.
Variable env : Env.

Lemma load_gives_grouping (w : World) :
  cache_wf (bot w) ->
  exists l w', load_areas_with_devices env false w = (grouping_of l, w')
               /\ devices_cache (bot w') = grouping_of l
               /\ (calls w' = calls w \/ calls w' = calls w ++ [GetStates]).
Proof.
  intros Hwf. destruct (_all_devices (bot w)) as [l|] eqn:Eraw.
  - exists l. eexists. split; [apply (load_regroup env l w Hwf Eraw)|].
    split; [reflexivity|now left].
  - eexists. eexists. split; [apply (load_miss env w Hwf Eraw)|].
    split; [reflexivity|now right].
Qed.

Lemma get_all_areas_list_miss (w : World) (l : list StateObj) (w' : World) :
  areas_list_memo (bot w) = None ->
  load_areas_with_devices env false w = (grouping_of l, w') ->
  get_all_areas_list env w
  = (Some (dict_keys (grouping_of l)),
     {| bot := set_areas_list_memo (Some (dict_keys (grouping_of l))) (bot w');
        calls := calls w'; ticks := ticks w' |}).
Proof.
  intros Hmemo Hload. unfold get_all_areas_list. rewrite run_bind, run_get_bot.
  cbn [fst snd]. rewrite Hmemo, run_bind, Hload. cbn [fst snd]. cbv zeta.
  pose proof (listing_of_grouping l) as Hl. unfold listing_of in Hl.
  destruct (with_int_keys _) as [keyed|]; [|discriminate Hl].
  injection Hl as Hl. rewrite Hl. rewrite run_bind, run_modify_bot, run_ret.
  reflexivity.
Qed.

(** X18. [get_all_areas_list] on a bot with a well-keyed grouped cache and
    no memoised list never raises: it returns the names of the groups that
    have devices, in the fixed order of the eleven group names (houses 1 to
    10 by number, the general group last), memoises that list, and a second
    call returns it again without touching the world. *)
Theorem areas_list_in_house_order (w : World) :
  cache_wf (bot w) -> areas_list_memo (bot w) = None ->
  let out := get_all_areas_list env w in
  let g := devices_cache (bot out.2) in
  out.1 = Some (dict_keys g)
  /\ dict_keys g = List.filter (fun k => dict_mem k g) (dict_keys empty_houses)
  /\ areas_list_memo (bot out.2) = Some (dict_keys g)
  /\ get_all_areas_list env out.2 = (Some (dict_keys g), out.2).
Proof.
  intros Hwf Hmemo. cbv zeta.
  destruct (load_gives_grouping w Hwf) as (l & w' & Hload & Hg & _).
  rewrite (get_all_areas_list_miss w l w' Hmemo Hload). cbn [fst snd bot].
  change (devices_cache (set_areas_list_memo _ (bot w'))) with (devices_cache (bot w')).
  rewrite Hg. split; [reflexivity|]. split; [apply grouping_keys|].
  split; [reflexivity|].
  unfold get_all_areas_list. rewrite run_bind, run_get_bot. reflexivity.
Qed.

Lemma create_main_menu_miss (w : World) (l : list StateObj) (w' : World) :
  areas_list_memo (bot w) = None ->
  load_areas_with_devices env false w = (grouping_of l, w') ->
  create_main_menu env w
  = (Some (main_menu_of (dict_keys (grouping_of l))),
     {| bot := set_areas_list_memo (Some (dict_keys (grouping_of l))) (bot w');
        calls := calls w'; ticks := ticks w' |}).
Proof.
  intros Hmemo Hload. unfold create_main_menu.
  rewrite run_bind, (get_all_areas_list_miss w l w' Hmemo Hload). cbn [fst snd].
  destruct (dict_keys (grouping_of l)); rewrite run_ret; reflexivity.
Qed.

Lemma main_menu_shape_house_names (ks : list str) :
  In ks (sublists (dict_keys empty_houses)) -> main_menu_shape ks = true.
Proof.
  intros H.
  assert (Hall : List.forallb main_menu_shape (sublists (dict_keys empty_houses)) = true)
    by (vm_compute; reflexivity).
  rewrite List.forallb_forall in Hall. now apply Hall.
Qed.

(** X19. The root keyboard, built on a bot with a well-keyed grouped cache
    and no memoised list of areas: [create_main_menu] never fails; when no
    group has devices the keyboard is the single button "Обновить";
    otherwise, read row by row, it shows every group that has devices
    exactly as listed (houses by number, the general group last) followed
    by "Обновить" and "Статус всех".  Every row has one or two buttons and
    there are at most seven rows. *)
Theorem main_menu_lists_every_group (w : World) :
  cache_wf (bot w) -> areas_list_memo (bot w) = None ->
  let out := create_main_menu env w in
  let areas := dict_keys (devices_cache (bot out.2)) in
  exists menu,
    out.1 = Some menu
    /\ List.concat menu = match areas with
                          | [] => [REFRESH]
                          | _ :: _ => areas ++ [REFRESH; STATUS_ALL]
                          end
    /\ (forall row, In row menu -> 1 <= List.length row <= 2)
    /\ List.length menu <= 7.
Proof.
  intros Hwf Hmemo. cbv zeta.
  destruct (load_gives_grouping w Hwf) as (l & w' & Hload & Hg & _).
  rewrite (create_main_menu_miss w l w' Hmemo Hload). cbn [fst snd bot].
  change (devices_cache (set_areas_list_memo _ (bot w'))) with (devices_cache (bot w')).
  rewrite Hg. eexists. split; [reflexivity|].
  pose proof (main_menu_shape_house_names (dict_keys (grouping_of l))) as Hs.
  rewrite grouping_keys in Hs at 1. specialize (Hs (sublists_filter _ _)).
  unfold main_menu_shape in Hs. cbv zeta in Hs.
  apply andb_prop in Hs as [Hs Hlen]. apply andb_prop in Hs as [Hcat Hrows].
  apply bool_decide_eq_true in Hcat. split; [exact Hcat|]. split.
  - intros row Hin. rewrite List.forallb_forall in Hrows. apply Hrows in Hin.
    unfold row_ok in Hin. apply andb_prop in Hin as [H1 H2].
    apply Nat.leb_le in H1, H2. now split.
  - now apply Nat.leb_le in Hlen.
Qed.
Lemma create_main_menu_builds (w : World) :
  cache_wf (bot w) ->
  exists menu w', create_main_menu env w = (Some menu, w')
                  /\ (calls w' = calls w \/ calls w' = calls w ++ [GetStates]).
Proof.
  intros Hwf. destruct (areas_list_memo (bot w)) as [l|] eqn:Hmemo.
  - exists (main_menu_of l), w. split; [|now left].
    unfold create_main_menu, get_all_areas_list.
    rewrite !run_bind, run_get_bot. cbn [fst snd]. rewrite Hmemo, run_ret. cbn [fst snd].
    destruct l; rewrite run_ret; reflexivity.
  - destruct (load_gives_grouping w Hwf) as (l & w' & Hload & _ & Hcalls).
    eexists. eexists. split; [apply (create_main_menu_miss w l w' Hmemo Hload)|].
    exact Hcalls.
Qed.

Lemma create_house_menu_builds (area_name : str) (w : World) :
  cache_wf (bot w) ->
  exists menu w', create_house_menu env area_name w = (menu, w')
                  /\ (calls w' = calls w \/ calls w' = calls w ++ [GetStates]).
Proof.
  intros Hwf. destruct (load_gives_grouping w Hwf) as (l & w' & Hload & _ & Hcalls).
  unfold create_house_menu, get_area_devices, when.
  run. rewrite Hload. run.
  destruct (dict_get_default area_name (grouping_of l) []);
    rewrite run_ret; eexists; eexists; (split; [reflexivity|exact Hcalls]).
Qed.

Lemma send_after_menu (chat : Z) (body : str) (menu : Menu) (w w' : World) :
  calls w' = calls w \/ calls w' = calls w ++ [GetStates] ->
  let out := (if utf8_encodable body
              then send (SendMessage chat body menu)
                        (fun n => telegram_send env n chat body menu)
              else mret false) w' in
  if utf8_encodable body then
    (calls out.2 = calls w ++ [SendMessage chat body menu]
     \/ calls out.2 = calls w ++ [GetStates; SendMessage chat body menu])
    /\ out.1 = telegram_send env (Nat.pred (List.length (calls out.2))) chat body menu
  else
    out.1 = false /\ (calls out.2 = calls w \/ calls out.2 = calls w ++ [GetStates]).
Proof.
  intros Hcalls. cbv zeta. destruct (utf8_encodable body).
  - rewrite run_send. cbn [fst snd calls]. split.
    + destruct Hcalls as [->| ->]; [now left|right]. now rewrite <- List.app_assoc.
    + rewrite List.length_app. cbn [List.length]. now rewrite Nat.add_1_r.
  - rewrite run_ret. cbn [fst snd]. split; [reflexivity|exact Hcalls].
Qed.

(** X20. Which replies reach Telegram.  On a bot with a well-keyed grouped
    cache [send_message] always builds its keyboard, after at most one
    fetch of the device list.  If the text can be encoded as UTF-8 it then
    sends exactly one message to the chat and returns what Telegram
    answered to it.  If the text holds an unpaired surrogate nothing is
    sent to Telegram and the result is [False]. *)
Theorem send_message_sends_once (chat : Z) (body menu_type : str)
    (area_name : option str) (w : World) :
  cache_wf (bot w) ->
  let out := send_message env chat body menu_type area_name w in
  if utf8_encodable body then
    exists menu,
      (calls out.2 = calls w ++ [SendMessage chat body menu]
       \/ calls out.2 = calls w ++ [GetStates; SendMessage chat body menu])
      /\ out.1 = telegram_send env (Nat.pred (List.length (calls out.2))) chat body menu
  else
    out.1 = false /\ (calls out.2 = calls w \/ calls out.2 = calls w ++ [GetStates]).
Proof.
  intros Hwf. cbv zeta. unfold send_message. rewrite run_bind.
  assert (Hbuilt : exists menu w',
             (match area_name with
              | Some (c :: a) =>
                if str_eqb menu_type HOUSE
                then m ← create_house_menu env (c :: a); mret (Some m)
                else create_main_menu env
              | _ => create_main_menu env
              end) w = (Some menu, w')
             /\ (calls w' = calls w \/ calls w' = calls w ++ [GetStates])).
  { destruct area_name as [[|c a]|]; try exact (create_main_menu_builds w Hwf).
    destruct (str_eqb menu_type HOUSE); [|exact (create_main_menu_builds w Hwf)].
    destruct (create_house_menu_builds (c :: a) w Hwf) as (menu & w' & Hm & Hcalls).
    exists menu, w'. rewrite run_bind, Hm, run_ret. now split. }
  destruct Hbuilt as (menu & w' & -> & Hcalls). cbn [fst snd].
  pose proof (send_after_menu chat body menu w w' Hcalls) as H. cbv zeta in H.
  destruct (utf8_encodable body); [exists menu|]; exact H.
Qed.
End AreasList.

Lemma send_message_sends_once_witness :
  cache_wf (bot fresh)
  /\ exists menu,
       (send_message lamp_on_env 7 (u "ok") MAIN None fresh).1
       = telegram_send lamp_on_env
           (Nat.pred (List.length
              (calls (send_message lamp_on_env 7 (u "ok") MAIN None fresh).2)))
           7 (u "ok") menu.
Proof.
  split; [reflexivity|].
  destruct (send_message_sends_once lamp_on_env 7 (u "ok") MAIN None fresh eq_refl)
    as (menu & _ & H).
  exists menu. exact H.
Defined.

Lemma main_menu_lists_every_group_witness :
  cache_wf (bot fresh) /\ areas_list_memo (bot fresh) = None
  /\ exists menu, (create_main_menu lamp_on_env fresh).1 = Some menu
                  /\ List.length menu <= 7.
Proof.
  split; [reflexivity|]. split; [reflexivity|].
  destruct (main_menu_lists_every_group lamp_on_env fresh eq_refl eq_refl)
    as (menu & H1 & _ & _ & H4).
  exists menu. split; [exact H1|exact H4].
Defined.

Lemma areas_list_in_house_order_witness :
  cache_wf (bot fresh) /\ areas_list_memo (bot fresh) = None
  /\ (get_all_areas_list lamp_on_env fresh).1
     = Some (dict_keys (devices_cache (bot (get_all_areas_list lamp_on_env fresh).2))).
Proof.
  split; [reflexivity|]. split; [reflexivity|].
  apply (areas_list_in_house_order lamp_on_env fresh); reflexivity.
Defined.
